(** * CrowdBT: Bradley-Terry scores from crowdsourced pairwise comparisons

    A shallow embedding of [crowdbt.py] ([estimate_bt_scores],
    [estimate_bt_ranks] and the closures [bt] and
    [negative_log_likelihood]) and the properties of its objective, its
    error behaviour and its output shaping.

    Conventions of the embedding.
    - Python floats are idealised as real numbers: [math.exp] neither
      overflows nor underflows, and arithmetic is exact.
    - Python exceptions are the values of [exn]; a computation that may
      raise returns a [result].
    - An annotator graph (a Python set of edges) is the list of its edges
      in iteration order; an edge [(j, i)] is a pair of Python ints.
    - [scipy.optimize.minimize] and [numpy.argsort] are library code: they
      are parameters of the embedding, constrained by the contracts
      [minimize_contract] and [argsort_contract]. *)

From Stdlib Require Import Reals Lra Lia Psatz ZArith List Bool.
From Stdlib Require Import Permutation Sorted FunctionalExtensionality.
Import ListNotations.

Open Scope R_scope.

(** ** Exceptions and results *)

(** The exceptions that the code can raise, by class and by the operation
    that raises them. *)
Inductive exn : Type :=
| ValueError_max_empty    (* [max] of an empty iterable *)
| ValueError_math_domain  (* [math.log10] of a number that is not positive *)
| IndexError              (* an index out of bounds *)
| ZeroDivisionError.      (* a float division by zero *)

Inductive result (A : Type) : Type :=
| Ok (a : A)
| Raise (e : exn).

Arguments Ok {A} a.
Arguments Raise {A} e.

Definition bind {A B : Type} (c : result A) (k : A -> result B) : result B :=
  match c with
  | Ok a => k a
  | Raise e => Raise e
  end.

Notation "x <- c1 ;; c2" := (bind c1 (fun x => c2))
  (at level 61, c1 at next level, right associativity).

Definition is_ok {A : Type} (c : result A) : Prop := exists a, c = Ok a.

(** ** Python and [math] primitives *)

(** [max(iterable)] over Python ints. *)
Definition py_max (xs : list Z) : result Z :=
  match xs with
  | [] => Raise ValueError_max_empty
  | x :: xs' => Ok (fold_left Z.max xs' x)
  end.

(** [sum(f(x) for x in xs)]: the generator is consumed from the left, and
    the first element whose evaluation raises ends the sum. *)
Fixpoint py_sum_from {A : Type} (f : A -> result R) (xs : list A) (acc : R)
  : result R :=
  match xs with
  | [] => Ok acc
  | x :: xs' => v <- f x ;; py_sum_from f xs' (acc + v)
  end.

Definition py_sum {A : Type} (f : A -> result R) (xs : list A) : result R :=
  py_sum_from f xs 0.

(** [s[i]] for a sequence [s] and a Python int [i]: an index in
    [-len(s), 0) counts from the end, anything outside [-len(s), len(s))
    raises [IndexError]. *)
Definition getitem (s : list R) (i : Z) : result R :=
  let n := Z.of_nat (length s) in
  if ((0 <=? i) && (i <? n))%Z then Ok (nth (Z.to_nat i) s 0)
  else if ((- n <=? i) && (i <? 0))%Z then Ok (nth (Z.to_nat (n + i)) s 0)
  else Raise IndexError.

(** Float division [x / y]. *)
Definition py_div (x y : R) : result R :=
  if Req_dec_T y 0 then Raise ZeroDivisionError
  else Ok (x / y).

(** [math.log10]. *)
Definition log10 (x : R) : result R :=
  if Rlt_dec 0 x then Ok (ln x / ln 10)
  else Raise ValueError_math_domain.

(** ** The objective *)

Definition edge : Type := (Z * Z)%type.
Definition graph : Type := list edge.

(** [bt(s_i, s_j)]. *)
Definition bt (s_i s_j : R) : result R :=
  py_div (exp s_i) (exp s_i + exp s_j).

(** The score of the virtual object node. *)
Definition s_vo : R := 1.

(** The summand of the log-likelihood for the edge [(j, i)]:
    [math.log10(h * bt(s[i], s[j]) + (1 - h) * bt(s[j], s[i]))].  The
    second reads of [s[j]] and [s[i]] return what the first ones did. *)
Definition edge_term (h : R) (s : list R) (e : edge) : result R :=
  let '(j, i) := e in
  si <- getitem s i ;;
  sj <- getitem s j ;;
  p <- bt si sj ;;
  q <- bt sj si ;;
  log10 (h * p + (1 - h) * q).

(** The summand of the regularization term for one score. *)
Definition reg_term (x : R) : result R :=
  p <- bt s_vo x ;;
  a <- log10 p ;;
  q <- bt x s_vo ;;
  b <- log10 q ;;
  Ok (a + b).

(** The generator [for edges in graphs for j, i in edges]. *)
Definition all_edges (graphs : list graph) : list edge := concat graphs.

Definition negative_log_likelihood
  (graphs : list graph) (preference_accuracy regularization_strength : R)
  (s : list R) : result R :=
  let h := preference_accuracy in
  let l := regularization_strength in
  L <- py_sum (edge_term h s) (all_edges graphs) ;;
  R <- py_sum (fun i : nat => si <- getitem s (Z.of_nat i) ;; reg_term si)
         (seq 0 (length s)) ;;
  Ok (-1 * (L + l * R)).

(** [num_vertices = 1 + max(max(i, j) for edges in graphs
    for j, i in edges)]. *)
Definition num_vertices (graphs : list graph) : result Z :=
  m <- py_max (map (fun e : edge => let '(j, i) := e in Z.max i j)
                 (all_edges graphs)) ;;
  Ok (1 + m)%Z.

(** [initial_guess = [1.0] * num_vertices]; a list times a non-positive
    int is the empty list. *)
Definition initial_guess (num_vertices : Z) : list R :=
  repeat 1 (Z.to_nat num_vertices).

(** ** numpy arrays of floats *)

(** An entry of a float array: a (real) number, an infinity or NaN. *)
Inductive npfloat : Type :=
| Fin (x : R)
| PInf
| NInf
| NaN.

(** Unary minus on an array entry. *)
Definition np_neg (x : npfloat) : npfloat :=
  match x with
  | Fin r => Fin (- r)
  | PInf => NInf
  | NInf => PInf
  | NaN => NaN
  end.

(** numpy's float division: dividing by zero does not raise, it yields
    NaN for [0 / 0] and a signed infinity otherwise. *)
Definition np_div (x y : R) : npfloat :=
  if Req_dec_T y 0 then
    if Req_dec_T x 0 then NaN
    else if Rlt_dec 0 x then PInf else NInf
  else Fin (x / y).

Definition Rsum (xs : list R) : R := fold_right Rplus 0 xs.

(** [a.mean()] of a non-empty array. *)
Definition mean (a : list R) : R := Rsum a / INR (length a).

(** [a.std()] with [ddof=0]: the population standard deviation. *)
Definition std (a : list R) : R :=
  sqrt (mean (map (fun x => (x - mean a) * (x - mean a)) a)).

(** [scipy.stats.zscore(a)] with its defaults on a one-dimensional array of
    finite numbers: [(a - a.mean()) / a.std(ddof=0)], elementwise.  On the
    empty array the result is the empty array. *)
Definition zscore (a : list R) : list npfloat :=
  map (fun x => np_div (x - mean a) (std a)) a.

(** ** Sorting *)

(** The order in which a sort compares the entries of an array. *)
Class Ordered (A : Type) : Type := { leb : A -> A -> bool }.

Definition Rleb (x y : R) : bool := if Rle_dec x y then true else false.

(** Ints compare as usual. *)
#[export] Instance Ordered_nat : Ordered nat := {| leb := Nat.leb |}.

(** Floats sort as numpy sorts them: -inf, the numbers, +inf, then NaN. *)
Definition np_leb (x y : npfloat) : bool :=
  match x, y with
  | _, NaN => true
  | NaN, _ => false
  | _, PInf => true
  | PInf, _ => false
  | NInf, _ => true
  | _, NInf => false
  | Fin a, Fin b => Rleb a b
  end.

#[export] Instance Ordered_npfloat : Ordered npfloat := {| leb := np_leb |}.

(** The order of an [Ordered] type is a total preorder. *)
Record lawful {A : Type} (O : Ordered A) : Prop := {
  leb_total : forall x y : A, leb x y = true \/ leb y x = true;
  leb_trans : forall x y z : A,
      leb x y = true -> leb y z = true -> leb x z = true
}.

(** [a[p]]: the entries of [a] at the indices [p]. *)
Definition gathers {A : Type} (a : list A) (p : list nat) (keys : list A)
  : Prop :=
  Forall2 (fun i x => nth_error a i = Some x) p keys.

(** [p] is an answer of [a.argsort()]: the indices of [a], each once, in
    an order in which the entries of [a] ascend.  Nothing is said about the
    order of the indices of equal entries: the default sort kind of
    [argsort] is not stable. *)
Definition is_argsort {A : Type} {O : Ordered A} (a : list A) (p : list nat)
  : Prop :=
  Permutation p (seq 0 (length a)) /\
  exists keys, gathers a p keys /\
               StronglySorted (fun x y => leb x y = true) keys.

Definition argsort_t : Type := forall A : Type, Ordered A -> list A -> list nat.

Definition argsort_contract (argsort : argsort_t) : Prop :=
  forall (A : Type) (O : Ordered A), lawful O ->
  forall a : list A, is_argsort a (argsort A O a).

(** A stable sort ([kind='stable']) also keeps the indices of equal entries
    in ascending order. *)
Definition is_stable {A : Type} {O : Ordered A} (a : list A) (p : list nat)
  : Prop :=
  forall k1 k2 i1 i2 x1 x2,
    (k1 < k2)%nat ->
    nth_error p k1 = Some i1 -> nth_error p k2 = Some i2 ->
    nth_error a i1 = Some x1 -> nth_error a i2 = Some x2 ->
    leb x2 x1 = true -> (i1 < i2)%nat.

(** Insertion sort on (index, entry) pairs; [before x y] decides whether
    the entry [x], which comes earlier in the array, is put in front of
    [y]. *)
Fixpoint insert_by {A : Type} (before : A -> A -> bool)
  (x : nat * A) (l : list (nat * A)) : list (nat * A) :=
  match l with
  | [] => [x]
  | y :: l' =>
      if before (snd x) (snd y) then x :: y :: l'
      else y :: insert_by before x l'
  end.

(** The order of the (index, entry) pairs: by entry. *)
Definition pair_le {A : Type} {O : Ordered A} (x y : nat * A) : Prop :=
  leb (snd x) (snd y) = true.

(** The order that a stable sort keeps: by entry, and by index among
    equal entries. *)
Definition stable_le {A : Type} {O : Ordered A} (x y : nat * A) : Prop :=
  leb (snd x) (snd y) = true /\
  (leb (snd y) (snd x) = true -> (fst x < fst y)%nat).

Definition sort_by {A : Type} (before : A -> A -> bool)
  (l : list (nat * A)) : list (nat * A) :=
  fold_right (insert_by before) [] l.

Definition enumerate {A : Type} (a : list A) : list (nat * A) :=
  combine (seq 0 (length a)) a.

(** A stable argsort: of two equal entries the earlier one stays first. *)
Definition argsort_stable : argsort_t :=
  fun A O a => map fst (sort_by leb (enumerate a)).

(** An argsort that is not stable: of two equal entries the later one
    comes first. *)
Definition argsort_ties_reversed : argsort_t :=
  fun A O a => map fst (sort_by (fun x y => negb (leb y x)) (enumerate a)).

(** ** The optimizer *)

(** [optimize.minimize(fun=f, x0=x0, method='BFGS',
    options={'maxiter': 99}).x]. *)
Definition optimizer : Type :=
  (list R -> result R) -> list R -> result (list R).

(** [x0] minimizes [f] among the vectors of its length. *)
Definition global_minimum (f : list R -> result R) (x0 : list R) : Prop :=
  exists v0, f x0 = Ok v0 /\
  forall x v, length x = length x0 -> f x = Ok v -> v0 <= v.

Definition total_on (f : list R -> result R) (n : nat) : Prop :=
  forall x, length x = n -> is_ok (f x).

(** What may be assumed of the optimizer. *)

(** On an objective that raises nowhere on the vectors of the length of
    [x0], it returns a vector of that length; no exception is raised when
    the iteration cap is hit. *)
Definition returns_on_total (minimize : optimizer) : Prop :=
  forall f x0,
    total_on f (length x0) ->
    exists x, minimize f x0 = Ok x /\ length x = length x0.

(** It evaluates the objective at the initial guess first, and an
    exception raised there is the outcome of the call. *)
Definition raises_first_error (minimize : optimizer) : Prop :=
  forall f x0 e, f x0 = Raise e -> minimize f x0 = Raise e.

(** It evaluates the objective only at vectors of the length of [x0]. *)
Definition reads_same_length (minimize : optimizer) : Prop :=
  forall f g x0,
    (forall x, length x = length x0 -> f x = g x) ->
    minimize f x0 = minimize g x0.

(** Started at a global minimum of an objective that raises nowhere, where
    the gradient vanishes, it stops at once and returns [x0]. *)
Definition stays_at_minimum (minimize : optimizer) : Prop :=
  forall f x0,
    total_on f (length x0) -> global_minimum f x0 ->
    minimize f x0 = Ok x0.

Record minimize_contract (minimize : optimizer) : Prop := {
  minimize_returns : returns_on_total minimize;
  minimize_raises : raises_first_error minimize;
  minimize_ext : reads_same_length minimize;
  minimize_stays : stays_at_minimum minimize
}.

(** An optimizer that evaluates the objective at the initial guess and
    makes no step. *)
Definition minimize_no_step : optimizer :=
  fun f x0 => _ <- f x0 ;; Ok x0.

(** An optimizer that evaluates the objective at the initial guess and
    moves one unit along the first coordinate. *)
Definition minimize_first_up : optimizer :=
  fun f x0 => _ <- f x0 ;;
              Ok (match x0 with [] => [] | x :: rest => (x + 1) :: rest end).

(** ** The two public functions *)

Section CrowdBT.

Variable minimize : optimizer.
Variable argsort : argsort_t.

Definition estimate_bt_scores (graphs : list graph)
  (standardize_bt_scores : bool)
  (preference_accuracy regularization_strength : R)
  : result (list npfloat) :=
  num_vertices <- num_vertices graphs ;;
  let initial_guess := initial_guess num_vertices in
  x <- minimize (negative_log_likelihood graphs preference_accuracy
                   regularization_strength) initial_guess ;;
  let raw_bt_scores := map exp x in
  if standardize_bt_scores then Ok (zscore raw_bt_scores)
  else Ok (map Fin raw_bt_scores).

Definition estimate_bt_ranks (graphs : list graph)
  (preference_accuracy regularization_strength : R)
  : result (list nat) :=
  bt_scores <- estimate_bt_scores graphs false preference_accuracy
                 regularization_strength ;;
  Ok (map (fun k => (k + 1)%nat)
        (argsort _ _ (argsort _ _ (map np_neg bt_scores)))).

End CrowdBT.

(** ** Corpora *)

(** Every edge index is non-negative. *)
Definition valid_corpus (graphs : list graph) : Prop :=
  forall g e, In g graphs -> In e g -> (0 <= fst e)%Z /\ (0 <= snd e)%Z.

(** No annotator graph has an edge (the corpus itself may be empty). *)
Definition no_edges (graphs : list graph) : Prop :=
  forall g, In g graphs -> g = [].

(** Every edge index is at least [lo]. *)
Definition indices_at_least (lo : Z) (graphs : list graph) : Prop :=
  forall g e, In g graphs -> In e g -> (lo <= fst e)%Z /\ (lo <= snd e)%Z.

(** Some edge index is below [lo]. *)
Definition some_index_below (lo : Z) (graphs : list graph) : Prop :=
  exists g e, In g graphs /\ In e g /\ ((fst e < lo)%Z \/ (snd e < lo)%Z).

(** Two annotators with opposite preferences on the objects 0 and 1:
    the corpus [[{(1, 0)}, {(0, 1)}]]. *)
Definition disagreement_corpus : list graph := [[(1, 0)%Z]; [(0, 1)%Z]].

Definition swap_edge (e : edge) : edge := let '(j, i) := e in (i, j).

(** A graph in which every preference of [ps] is stated together with
    its opposite. *)
Definition opposite_pairs (ps : list edge) : graph :=
  flat_map (fun e => [e; swap_edge e]) ps.

(** One annotator who prefers object 0 over each of the objects 1..17 and
    each of them over object 0: a corpus of 18 objects. *)
Definition star_corpus : list graph :=
  [opposite_pairs (map (fun k => (Z.of_nat k, 0%Z)) (seq 1 17))].

(** The corpus with every preference turned around. *)
Definition reverse_corpus (graphs : list graph) : list graph :=
  map (map swap_edge) graphs.

(** The score vector [s] with the entry of object [k] replaced by [x]. *)
Definition set_score (k : nat) (x : R) (s : list R) : list R :=
  firstn k s ++ x :: skipn (S k) s.

(** A score vector of length [n] that is [x] at object [a], [y] at object
    [b] and [0] elsewhere. *)
Definition two_scores (n a b : nat) (x y : R) : list R :=
  map (fun k => if Nat.eqb k a then x else if Nat.eqb k b then y else 0)
    (seq 0 n).

(** ** The objective in the words of the specification *)

Definition spec_log10 (x : R) : R := ln x / ln 10.

Definition spec_bt (s_i s_j : R) : R := exp s_i / (exp s_i + exp s_j).

(** The score of object [i] in the score vector [s]. *)
Definition score_at (s : list R) (i : Z) : R := nth (Z.to_nat i) s 0.

Definition spec_edge_term (h : R) (s : list R) (e : edge) : R :=
  let '(j, i) := e in
  spec_log10 (h * spec_bt (score_at s i) (score_at s j)
              + (1 - h) * spec_bt (score_at s j) (score_at s i)).

(** [L]: the sum over every edge of every annotator graph. *)
Definition spec_L (h : R) (graphs : list graph) (s : list R) : R :=
  Rsum (map (fun g => Rsum (map (spec_edge_term h s) g)) graphs).

Definition spec_reg_term (x : R) : R :=
  spec_log10 (spec_bt 1 x) + spec_log10 (spec_bt x 1).

(** [R]: the sum over every object. *)
Definition spec_R (s : list R) : R := Rsum (map spec_reg_term s).

(** The objective to minimize, [-(L + lambda * R)]. *)
Definition spec_objective (h lambda : R) (graphs : list graph) (s : list R)
  : R :=
  - (spec_L h graphs s + lambda * spec_R s).

(** * Properties *)

(** ** Results *)

Lemma bind_ok_inv {A B : Type} (c : result A) (k : A -> result B) (b : B) :
  bind c k = Ok b -> exists a, c = Ok a /\ k a = Ok b.
Proof.
  destruct c as [a | e]; simpl; intros H; [eauto | discriminate].
Qed.

Lemma py_sum_from_ok {A : Type} (f : A -> result R) (g : A -> R) :
  forall (xs : list A) (acc : R),
    (forall x, In x xs -> f x = Ok (g x)) ->
    py_sum_from f xs acc = Ok (acc + Rsum (map g xs)).
Proof.
  induction xs as [| x xs IH]; intros acc Hf; simpl.
  - f_equal. unfold Rsum. simpl. lra.
  - rewrite (Hf x (or_introl eq_refl)). simpl.
    rewrite IH by (intros y Hy; apply Hf; now right).
    f_equal. unfold Rsum. simpl. lra.
Qed.

Lemma py_sum_ok {A : Type} (f : A -> result R) (g : A -> R) (xs : list A) :
  (forall x, In x xs -> f x = Ok (g x)) ->
  py_sum f xs = Ok (Rsum (map g xs)).
Proof.
  intros Hf. unfold py_sum. rewrite (py_sum_from_ok f g xs 0 Hf).
  f_equal. lra.
Qed.

Lemma Rsum_app (xs ys : list R) : Rsum (xs ++ ys) = Rsum xs + Rsum ys.
Proof.
  unfold Rsum. induction xs as [| x xs IH]; simpl; [lra | rewrite IH; lra].
Qed.

Lemma Rsum_concat {A : Type} (f : A -> R) (ls : list (list A)) :
  Rsum (map f (concat ls)) = Rsum (map (fun l => Rsum (map f l)) ls).
Proof.
  induction ls as [| l ls IH]; simpl; [reflexivity |].
  rewrite map_app, Rsum_app, IH. reflexivity.
Qed.

Lemma spec_L_all_edges (h : R) (graphs : list graph) (s : list R) :
  spec_L h graphs s = Rsum (map (spec_edge_term h s) (all_edges graphs)).
Proof. unfold spec_L, all_edges. now rewrite Rsum_concat. Qed.

(** ** The Bradley-Terry probability *)

Lemma exp_sum_pos (a b : R) : 0 < exp a + exp b.
Proof. pose proof (exp_pos a). pose proof (exp_pos b). lra. Qed.

Lemma bt_ok (a b : R) : bt a b = Ok (spec_bt a b).
Proof.
  unfold bt, py_div, spec_bt. pose proof (exp_sum_pos a b).
  destruct (Req_dec_T (exp a + exp b) 0); [lra | reflexivity].
Qed.

Lemma spec_bt_pos (a b : R) : 0 < spec_bt a b.
Proof.
  unfold spec_bt. apply Rdiv_lt_0_compat; [apply exp_pos | apply exp_sum_pos].
Qed.

Lemma spec_bt_compl (a b : R) : spec_bt a b + spec_bt b a = 1.
Proof.
  unfold spec_bt. pose proof (exp_sum_pos a b). field. lra.
Qed.

Lemma spec_bt_same (a : R) : spec_bt a a = / 2.
Proof.
  unfold spec_bt. pose proof (exp_pos a). field. lra.
Qed.

Lemma mix_pos (h p q : R) :
  0 <= h <= 1 -> 0 < p -> 0 < q -> 0 < h * p + (1 - h) * q.
Proof.
  intros [H0 H1] Hp Hq.
  destruct (Rle_lt_dec h (/ 2)) as [Hh | Hh].
  - assert (0 <= h * p) by nra. assert (0 < (1 - h) * q) by nra. lra.
  - assert (0 < h * p) by nra. assert (0 <= (1 - h) * q) by nra. lra.
Qed.

Lemma log10_ok (x : R) : 0 < x -> log10 x = Ok (spec_log10 x).
Proof.
  intros Hx. unfold log10.
  destruct (Rlt_dec 0 x); [reflexivity | contradiction].
Qed.

Lemma reg_term_ok (x : R) : reg_term x = Ok (spec_reg_term x).
Proof.
  unfold reg_term, spec_reg_term, s_vo. rewrite !bt_ok. simpl.
  rewrite (log10_ok _ (spec_bt_pos 1 x)). simpl.
  rewrite (log10_ok _ (spec_bt_pos x 1)). reflexivity.
Qed.

(** ** Indexing *)

Lemma getitem_nonneg (s : list R) (i : Z) :
  (0 <= i < Z.of_nat (length s))%Z -> getitem s i = Ok (score_at s i).
Proof.
  intros [H0 H1]. unfold getitem, score_at.
  apply Z.leb_le in H0. apply Z.ltb_lt in H1. rewrite H0, H1. reflexivity.
Qed.

Lemma getitem_wraps (s : list R) (i : Z) :
  (- Z.of_nat (length s) <= i < 0)%Z ->
  getitem s i = Ok (score_at s (Z.of_nat (length s) + i)).
Proof.
  intros [H0 H1]. unfold getitem, score_at.
  assert (E : (0 <=? i)%Z = false) by (apply Z.leb_gt; lia).
  rewrite E. simpl.
  apply Z.leb_le in H0. apply Z.ltb_lt in H1. rewrite H0, H1. reflexivity.
Qed.

Lemma getitem_out_of_range (s : list R) (i : Z) :
  (i < - Z.of_nat (length s) \/ Z.of_nat (length s) <= i)%Z ->
  getitem s i = Raise IndexError.
Proof.
  intros H. unfold getitem.
  destruct (Z.leb_spec 0 i), (Z.ltb_spec i (Z.of_nat (length s)));
    simpl; try lia;
    destruct (Z.leb_spec (- Z.of_nat (length s)) i), (Z.ltb_spec i 0);
    simpl; try lia; reflexivity.
Qed.

Lemma map_nth_seq (s : list R) :
  map (fun i : nat => nth i s 0) (seq 0 (length s)) = s.
Proof.
  induction s as [| x s IH]; simpl; [reflexivity |].
  f_equal. rewrite <- seq_shift, map_map. exact IH.
Qed.

(** ** The number of objects *)

Lemma fold_left_max_ge (xs : list Z) (x : Z) :
  (x <= fold_left Z.max xs x)%Z /\
  forall y, In y xs -> (y <= fold_left Z.max xs x)%Z.
Proof.
  revert x. induction xs as [| a xs IH]; intros x; simpl.
  - split; [lia | contradiction].
  - destruct (IH (Z.max x a)) as [H1 H2]. split; [lia |].
    intros y [-> | Hy]; [lia | now apply H2].
Qed.

Lemma py_max_ge (xs : list Z) (m : Z) :
  py_max xs = Ok m -> forall y, In y xs -> (y <= m)%Z.
Proof.
  destruct xs as [| x xs]; simpl; intros H; [discriminate |].
  injection H as <-. destruct (fold_left_max_ge xs x) as [H1 H2].
  intros y [-> | Hy]; [exact H1 | now apply H2].
Qed.

Lemma fold_left_max_in (xs : list Z) (x : Z) :
  fold_left Z.max xs x = x \/ In (fold_left Z.max xs x) xs.
Proof.
  revert x. induction xs as [| a xs IH]; intros x; simpl; [now left |].
  destruct (IH (Z.max x a)) as [E | Hin]; [| now right; right].
  rewrite E. destruct (Z.max_spec x a) as [[_ ->] | [_ ->]]; auto.
Qed.

Lemma py_max_in (xs : list Z) (m : Z) : py_max xs = Ok m -> In m xs.
Proof.
  destruct xs as [| x xs]; simpl; intros H; [discriminate |].
  injection H as <-. destruct (fold_left_max_in xs x) as [-> | Hin]; auto.
Qed.

Lemma in_all_edges (graphs : list graph) (e : edge) :
  In e (all_edges graphs) <-> exists g, In g graphs /\ In e g.
Proof.
  unfold all_edges. rewrite in_concat. split; intros (g & H1 & H2); eauto.
Qed.

Lemma num_vertices_inv (graphs : list graph) (n : Z) :
  num_vertices graphs = Ok n ->
  exists m,
    py_max (map (fun e : edge => let '(j, i) := e in Z.max i j)
              (all_edges graphs)) = Ok m /\ n = (1 + m)%Z.
Proof.
  unfold num_vertices. intros H.
  destruct (py_max _) as [m | e]; [| discriminate].
  exists m. split; [reflexivity |].
  change (Ok (1 + m)%Z = Ok n) in H. congruence.
Qed.

(** Every index of every edge is below the number of objects. *)
Lemma num_vertices_above (graphs : list graph) (n : Z) :
  num_vertices graphs = Ok n ->
  forall j i, In (j, i) (all_edges graphs) -> (i < n)%Z /\ (j < n)%Z.
Proof.
  intros H j i Hin. destruct (num_vertices_inv _ _ H) as (m & Hm & ->).
  pose proof (py_max_ge _ _ Hm (Z.max i j)) as Hle.
  assert (Hi : In (Z.max i j)
                 (map (fun e : edge => let '(j, i) := e in Z.max i j)
                    (all_edges graphs))).
  { apply in_map_iff. exists (j, i). split; [reflexivity | exact Hin]. }
  specialize (Hle Hi). lia.
Qed.

(** The number of objects is one plus an index that occurs in an edge,
    and that index is the greatest one. *)
Lemma num_vertices_is_max (graphs : list graph) (n : Z) :
  num_vertices graphs = Ok n ->
  (exists j i, In (j, i) (all_edges graphs) /\ n = (1 + Z.max i j)%Z) /\
  (forall j i, In (j, i) (all_edges graphs) -> (1 + Z.max i j <= n)%Z).
Proof.
  intros H. split.
  - destruct (num_vertices_inv _ _ H) as (m & Hm & ->).
    apply py_max_in in Hm. apply in_map_iff in Hm.
    destruct Hm as ([j i] & E & Hin). exists j, i. split; [exact Hin | lia].
  - intros j i Hin. destruct (num_vertices_above _ _ H j i Hin). lia.
Qed.

Lemma num_vertices_ok (graphs : list graph) :
  all_edges graphs <> [] -> is_ok (num_vertices graphs).
Proof.
  unfold num_vertices, is_ok. intros H.
  destruct (all_edges graphs) as [| e es]; [contradiction |].
  simpl. eauto.
Qed.

Lemma valid_corpus_edges (graphs : list graph) :
  valid_corpus graphs ->
  forall j i, In (j, i) (all_edges graphs) -> (0 <= i)%Z /\ (0 <= j)%Z.
Proof.
  intros Hv j i Hin. apply in_all_edges in Hin. destruct Hin as (g & Hg & He).
  destruct (Hv g (j, i) Hg He). simpl in *. lia.
Qed.

(** ** The objective is the regularized negative log-likelihood *)

Lemma edge_term_ok (h : R) (s : list R) (j i : Z) :
  0 <= h <= 1 ->
  (0 <= i < Z.of_nat (length s))%Z -> (0 <= j < Z.of_nat (length s))%Z ->
  edge_term h s (j, i) = Ok (spec_edge_term h s (j, i)).
Proof.
  intros Hh Hi Hj. unfold edge_term, spec_edge_term.
  rewrite (getitem_nonneg s i Hi). simpl.
  rewrite (getitem_nonneg s j Hj). simpl.
  rewrite !bt_ok. simpl.
  apply log10_ok. apply mix_pos; [exact Hh | apply spec_bt_pos ..].
Qed.

Lemma reg_sum_ok (s : list R) :
  py_sum (fun i : nat => si <- getitem s (Z.of_nat i) ;; reg_term si)
    (seq 0 (length s)) = Ok (spec_R s).
Proof.
  rewrite (py_sum_ok _ (fun i : nat => spec_reg_term (nth i s 0))).
  - unfold spec_R.
    rewrite <- (map_map (fun i : nat => nth i s 0) spec_reg_term).
    rewrite map_nth_seq. reflexivity.
  - intros i Hi. apply in_seq in Hi.
    rewrite getitem_nonneg by lia. simpl.
    unfold score_at. rewrite Nat2Z.id. apply reg_term_ok.
Qed.

Lemma negative_log_likelihood_spec (graphs : list graph) (h l : R)
  (n : Z) (s : list R) :
  num_vertices graphs = Ok n ->
  valid_corpus graphs ->
  0 <= h <= 1 ->
  length s = Z.to_nat n ->
  negative_log_likelihood graphs h l s = Ok (spec_objective h l graphs s).
Proof.
  intros Hn Hv Hh Hlen. unfold negative_log_likelihood.
  rewrite (py_sum_ok _ (spec_edge_term h s)).
  - simpl. rewrite reg_sum_ok. simpl.
    unfold spec_objective, spec_L, all_edges. rewrite Rsum_concat.
    f_equal. lra.
  - intros [j i] Hin.
    destruct (num_vertices_above _ _ Hn j i Hin).
    destruct (valid_corpus_edges _ Hv j i Hin).
    apply edge_term_ok; [exact Hh | lia | lia].
Qed.

(** ** The regularization term *)

Lemma exp_opp_inv (a : R) : exp (- a) = / exp a.
Proof. apply exp_Ropp. Qed.

(** [exp u + exp (-u)] grows with [u] on the non-negative reals. *)
Lemma exp_pair_increasing (a b : R) :
  0 <= a < b -> exp a + exp (- a) < exp b + exp (- b).
Proof.
  intros [Ha Hab]. rewrite !exp_opp_inv.
  assert (HA : 1 <= exp a).
  { rewrite <- exp_0.
    destruct Ha as [Ha | <-];
      [left; now apply exp_increasing | right; reflexivity]. }
  assert (HB : exp a < exp b) by now apply exp_increasing.
  set (A := exp a) in *. set (B := exp b) in *.
  assert (HAB : 1 < A * B) by nra.
  assert (E : B + / B - (A + / A) = (B - A) * (A * B - 1) / (A * B)).
  { field. lra. }
  assert (0 < (B - A) * (A * B - 1) / (A * B)).
  { apply Rdiv_lt_0_compat; nra. }
  lra.
Qed.

Lemma exp_pair_abs (u : R) : exp u + exp (- u) = exp (Rabs u) + exp (- Rabs u).
Proof.
  unfold Rabs.
  destruct (Rcase_abs u); [rewrite Ropp_involutive; lra | reflexivity].
Qed.

Lemma exp_pair_abs_increasing (u v : R) :
  Rabs u < Rabs v -> exp u + exp (- u) < exp v + exp (- v).
Proof.
  intros H. rewrite (exp_pair_abs u), (exp_pair_abs v).
  apply exp_pair_increasing. split; [apply Rabs_pos | exact H].
Qed.

(** The product of the two probabilities of the regularization term. *)
Lemma spec_bt_product (c x : R) :
  spec_bt c x * spec_bt x c = / (2 + (exp (x - c) + exp (- (x - c)))).
Proof.
  unfold spec_bt. rewrite exp_opp_inv.
  replace (exp (x - c)) with (exp x / exp c)
    by (unfold Rminus; rewrite exp_plus, exp_opp_inv; reflexivity).
  pose proof (exp_pos c). pose proof (exp_pos x).
  field. repeat split; nra.
Qed.

Lemma ln10_pos : 0 < ln 10.
Proof. rewrite <- ln_1. apply ln_increasing; lra. Qed.

Lemma spec_log10_increasing (x y : R) :
  0 < x -> x < y -> spec_log10 x < spec_log10 y.
Proof.
  intros Hx Hxy. unfold spec_log10, Rdiv.
  apply Rmult_lt_compat_r; [apply Rinv_0_lt_compat, ln10_pos |].
  now apply ln_increasing.
Qed.

Lemma spec_log10_mult (x y : R) :
  0 < x -> 0 < y -> spec_log10 (x * y) = spec_log10 x + spec_log10 y.
Proof.
  intros Hx Hy. unfold spec_log10. rewrite ln_mult by assumption.
  pose proof ln10_pos. field. lra.
Qed.

Lemma spec_reg_term_product (x : R) :
  spec_reg_term x = spec_log10 (/ (2 + (exp (x - 1) + exp (- (x - 1))))).
Proof.
  unfold spec_reg_term.
  rewrite <- spec_log10_mult by apply spec_bt_pos.
  rewrite spec_bt_product. reflexivity.
Qed.

(** The contribution of a score to the regularization term falls as the
    score moves away from the score of the virtual object. *)
Lemma spec_reg_term_decreasing (a b : R) :
  Rabs (a - s_vo) < Rabs (b - s_vo) -> spec_reg_term b < spec_reg_term a.
Proof.
  unfold s_vo. intros H. rewrite !spec_reg_term_product.
  pose proof (exp_pair_abs_increasing _ _ H) as Hlt.
  pose proof (exp_pos (a - 1)). pose proof (exp_pos (- (a - 1))).
  pose proof (exp_pos (b - 1)). pose proof (exp_pos (- (b - 1))).
  apply spec_log10_increasing.
  - apply Rinv_0_lt_compat. lra.
  - apply Rinv_lt_contravar; [| lra]. apply Rmult_lt_0_compat; lra.
Qed.

(** C2 (as the code has it): the contribution
    [log10(bt(s_vo, s_i)) + log10(bt(s_i, s_vo))] of an object to the
    regularization term, with the virtual object at [s_vo = 1.0] in the
    space of the scores [s], is greatest exactly at [s_i = 1] and falls
    strictly as [|s_i - 1|] grows. *)
Theorem regularization_peaks_at_virtual_object :
  (forall x : R, x <> s_vo ->
     exists r r0, reg_term x = Ok r /\ reg_term s_vo = Ok r0 /\ r < r0) /\
  (forall a b : R, Rabs (a - s_vo) < Rabs (b - s_vo) ->
     exists ra rb, reg_term a = Ok ra /\ reg_term b = Ok rb /\ rb < ra).
Proof.
  split.
  - intros x Hx. exists (spec_reg_term x), (spec_reg_term s_vo).
    rewrite !reg_term_ok. repeat split.
    apply spec_reg_term_decreasing.
    replace (s_vo - s_vo) with 0 by lra. rewrite Rabs_R0.
    apply Rabs_pos_lt. lra.
  - intros a b H. exists (spec_reg_term a), (spec_reg_term b).
    rewrite !reg_term_ok. repeat split.
    now apply spec_reg_term_decreasing.
Qed.

Lemma regularization_peaks_at_virtual_object_witness :
  exists ra rb, reg_term 2 = Ok ra /\ reg_term 4 = Ok rb /\ rb < ra.
Proof.
  apply (proj2 regularization_peaks_at_virtual_object 2 4).
  unfold s_vo. replace (2 - 1) with 1 by lra. replace (4 - 1) with 3 by lra.
  rewrite !Rabs_right by lra. lra.
Defined.

(** C2 (as the specification has it) fails: the contribution at
    [s_i = 0] is strictly below the one at [s_i = 1], so it is not
    greatest at [0], and it rises while [|s_i|] grows from [0] to [1]. *)
Lemma regularization_not_greatest_at_zero :
  exists r0 r1, reg_term 0 = Ok r0 /\ reg_term 1 = Ok r1 /\ r0 < r1.
Proof.
  exists (spec_reg_term 0), (spec_reg_term 1).
  rewrite !reg_term_ok. repeat split.
  apply spec_reg_term_decreasing. unfold s_vo.
  replace (1 - 1) with 0 by lra. rewrite Rabs_R0.
  apply Rabs_pos_lt. lra.
Qed.

(** ** The optimizer that makes no step *)

Lemma minimize_no_step_contract : minimize_contract minimize_no_step.
Proof.
  constructor; unfold minimize_no_step.
  - intros f x0 H. destruct (H x0 eq_refl) as [v Hv].
    exists x0. rewrite Hv. split; reflexivity.
  - intros f x0 e H. rewrite H. reflexivity.
  - intros f g x0 H. rewrite (H x0 eq_refl). reflexivity.
  - intros f x0 H _. destruct (H x0 eq_refl) as [v Hv].
    rewrite Hv. reflexivity.
Qed.

Lemma initial_guess_length (n : Z) : length (initial_guess n) = Z.to_nat n.
Proof. apply repeat_length. Qed.

(** On a valid corpus the objective raises nowhere on the score vectors
    of length [n]. *)
Lemma negative_log_likelihood_total (graphs : list graph) (h l : R) (n : Z) :
  num_vertices graphs = Ok n -> valid_corpus graphs -> 0 <= h <= 1 ->
  total_on (negative_log_likelihood graphs h l) (Z.to_nat n).
Proof.
  intros Hn Hv Hh s Hs. eexists.
  apply (negative_log_likelihood_spec graphs h l n s Hn Hv Hh Hs).
Qed.

Lemma estimate_bt_scores_no_step (graphs : list graph) (std : bool)
  (h l : R) (n : Z) (x0 : list R) :
  num_vertices graphs = Ok n -> valid_corpus graphs -> 0 <= h <= 1 ->
  length x0 = Z.to_nat n ->
  estimate_bt_scores (fun f _ => minimize_no_step f x0) graphs std h l
  = Ok (if std then zscore (map exp x0) else map Fin (map exp x0)).
Proof.
  intros Hn Hv Hh Hx. unfold estimate_bt_scores. rewrite Hn. simpl.
  unfold minimize_no_step.
  rewrite (negative_log_likelihood_spec graphs h l n x0 Hn Hv Hh Hx).
  simpl. destruct std; reflexivity.
Qed.

(** ** The initial guess *)

Lemma estimate_bt_scores_initial_guess (minimize : optimizer)
  (graphs : list graph) (std : bool) (h l : R) (n : Z) :
  num_vertices graphs = Ok n ->
  estimate_bt_scores minimize graphs std h l
  = estimate_bt_scores (fun f _ => minimize f (repeat 1 (Z.to_nat n)))
      graphs std h l.
Proof.
  intros Hn. unfold estimate_bt_scores. rewrite Hn. reflexivity.
Qed.

(** C3 (as the code has it): whatever the corpus, the initial guess is
    made of [n] copies of [1.0], [n] being the number of objects, and it is
    the vector the optimizer is called with: replacing the initial guess
    that the optimizer receives by [n] copies of [1.0] changes nothing.
    The optimizer's variables are exponentiated afterwards, so that each
    object starts at the score [e], the score of the virtual object. *)
Theorem initial_guess_is_all_ones (minimize : optimizer)
  (graphs : list graph) (std : bool) (h l : R) (n : Z) :
  num_vertices graphs = Ok n ->
  length (initial_guess n) = Z.to_nat n /\
  (forall x, In x (initial_guess n) -> x = 1 /\ x = s_vo) /\
  estimate_bt_scores minimize graphs std h l
  = estimate_bt_scores (fun f _ => minimize f (repeat 1 (Z.to_nat n)))
      graphs std h l.
Proof.
  intros Hn. split; [apply initial_guess_length |]. split.
  - intros x Hx. unfold initial_guess in Hx. apply repeat_spec in Hx.
    unfold s_vo. now split.
  - unfold estimate_bt_scores. rewrite Hn. reflexivity.
Qed.

Lemma single_edge_valid (j i : Z) :
  (0 <= j)%Z -> (0 <= i)%Z -> valid_corpus [[(j, i)]].
Proof.
  intros Hj Hi g e [<- | []] [<- | []]. simpl. split; assumption.
Qed.

Lemma initial_guess_is_all_ones_witness :
  length (initial_guess 2) = Z.to_nat 2 /\
  (forall x, In x (initial_guess 2) -> x = 1 /\ x = s_vo) /\
  estimate_bt_scores minimize_no_step [[(1, 0)%Z]] false (9 / 10) (1 / 2)
  = estimate_bt_scores (fun f _ => minimize_no_step f (repeat 1 (Z.to_nat 2)))
      [[(1, 0)%Z]] false (9 / 10) (1 / 2).
Proof.
  apply (initial_guess_is_all_ones minimize_no_step [[(1, 0)%Z]] false
           (9 / 10) (1 / 2) 2).
  reflexivity.
Defined.

(** C3 (as the specification has it) fails: an optimizer that returns the
    vector it is started from shows that the initial guess for the corpus
    [[{(1, 0)}]] is not two copies of [0.0]. *)
Lemma initial_guess_is_not_all_zeros :
  estimate_bt_scores minimize_no_step [[(1, 0)%Z]] false (9 / 10) (1 / 2)
  <> estimate_bt_scores (fun f _ => minimize_no_step f (repeat 0 2))
       [[(1, 0)%Z]] false (9 / 10) (1 / 2).
Proof.
  assert (Hn : num_vertices [[(1, 0)%Z]] = Ok 2%Z) by reflexivity.
  assert (Hv : valid_corpus [[(1, 0)%Z]]) by (apply single_edge_valid; lia).
  assert (Hh : 0 <= 9 / 10 <= 1) by lra.
  rewrite (estimate_bt_scores_initial_guess minimize_no_step _ false _ _ 2 Hn).
  rewrite (estimate_bt_scores_no_step _ false _ _ 2 (repeat 1 (Z.to_nat 2))
             Hn Hv Hh eq_refl).
  rewrite (estimate_bt_scores_no_step _ false _ _ 2 (repeat 0 2)
             Hn Hv Hh eq_refl).
  simpl. intros H. injection H as H _.
  apply exp_inv in H. lra.
Qed.

(** ** No preference data *)

Lemma no_edges_all_edges (graphs : list graph) :
  no_edges graphs -> all_edges graphs = [].
Proof.
  unfold all_edges. induction graphs as [| g gs IH]; intros H; [reflexivity |].
  simpl. rewrite (H g (or_introl eq_refl)). simpl.
  apply IH. intros g' Hg'. apply H. now right.
Qed.

Lemma num_vertices_no_edges (graphs : list graph) :
  no_edges graphs -> num_vertices graphs = Raise (ValueError_max_empty).
Proof.
  intros H. unfold num_vertices. rewrite (no_edges_all_edges graphs H).
  reflexivity.
Qed.

(** C4 (as the code has it): when the corpus is empty, or every annotator
    graph in it is empty, [estimate_bt_scores] and [estimate_bt_ranks] fail
    with the [ValueError] that [max] raises on the empty sequence of
    indices; the optimizer is not reached. *)
Theorem no_preference_data_raises_max_error (minimize : optimizer)
  (argsort : argsort_t) (graphs : list graph) (std : bool) (h l : R) :
  no_edges graphs ->
  estimate_bt_scores minimize graphs std h l
  = Raise (ValueError_max_empty) /\
  estimate_bt_ranks minimize argsort graphs h l
  = Raise (ValueError_max_empty).
Proof.
  intros H. unfold estimate_bt_ranks, estimate_bt_scores.
  rewrite (num_vertices_no_edges graphs H). split; reflexivity.
Qed.

Lemma no_preference_data_raises_max_error_witness :
  estimate_bt_scores minimize_no_step [[]; []] true (9 / 10) (1 / 2)
  = Raise (ValueError_max_empty) /\
  estimate_bt_ranks minimize_no_step argsort_stable [[]; []] (9 / 10) (1 / 2)
  = Raise (ValueError_max_empty).
Proof.
  apply (no_preference_data_raises_max_error minimize_no_step argsort_stable
           [[]; []] true (9 / 10) (1 / 2)).
  intros g [<- | [<- | []]]; reflexivity.
Defined.

(** C4 (as the specification has it) fails: on the empty corpus the
    failure is no error of its own but the very exception of the
    empty-sequence [max]. *)
Lemma empty_corpus_error_is_the_max_error :
  ~ exists e : exn,
      estimate_bt_scores minimize_no_step [] false (9 / 10) (1 / 2) = Raise e /\
      e <> ValueError_max_empty.
Proof.
  intros (e & He & Hne). apply Hne.
  unfold estimate_bt_scores in He. simpl in He. congruence.
Qed.

(** ** Sorted lists and gathers *)

Lemma Forall2_nth_error_l {A B : Type} (P : A -> B -> Prop)
  (l1 : list A) (l2 : list B) :
  Forall2 P l1 l2 ->
  forall k x, nth_error l1 k = Some x ->
              exists y, nth_error l2 k = Some y /\ P x y.
Proof.
  induction 1 as [| a b l1 l2 Hab _ IH]; intros k x Hk.
  - destruct k; discriminate.
  - destruct k as [| k]; simpl in *.
    + injection Hk as <-. eauto.
    + now apply IH.
Qed.

Lemma Forall2_same_length {A B : Type} (P : A -> B -> Prop)
  (l1 : list A) (l2 : list B) : Forall2 P l1 l2 -> length l1 = length l2.
Proof. induction 1; simpl; congruence. Qed.

Lemma StronglySorted_nth_error {A : Type} (R : A -> A -> Prop) (l : list A) :
  StronglySorted R l ->
  forall k1 k2 x y, (k1 < k2)%nat ->
    nth_error l k1 = Some x -> nth_error l k2 = Some y -> R x y.
Proof.
  induction 1 as [| a l Hl IH Ha]; intros k1 k2 x y Hk H1 H2.
  - destruct k1; discriminate.
  - destruct k2 as [| k2]; [lia |]. simpl in H2.
    destruct k1 as [| k1]; simpl in H1.
    + injection H1 as <-. rewrite Forall_forall in Ha.
      apply Ha. eapply nth_error_In; eassumption.
    + apply (IH k1 k2); [lia | assumption ..].
Qed.

Lemma StronglySorted_seq (start len : nat) :
  StronglySorted le (seq start len).
Proof.
  revert start. induction len as [| len IH]; intros start; simpl.
  - constructor.
  - constructor; [apply IH |].
    apply Forall_forall. intros x Hx. apply in_seq in Hx. lia.
Qed.

(** A sorted list of naturals is determined by its elements. *)
Lemma StronglySorted_le_unique (l1 l2 : list nat) :
  StronglySorted le l1 -> StronglySorted le l2 -> Permutation l1 l2 ->
  l1 = l2.
Proof.
  revert l2. induction l1 as [| x l1 IH]; intros l2 H1 H2 HP.
  - apply Permutation_nil in HP. now subst.
  - destruct l2 as [| y l2].
    + apply Permutation_sym, Permutation_nil in HP. discriminate.
    + apply StronglySorted_inv in H1. destruct H1 as [H1 Hx].
      apply StronglySorted_inv in H2. destruct H2 as [H2 Hy].
      rewrite Forall_forall in Hx, Hy.
      assert (Hxy : (y <= x)%nat).
      { pose proof (Permutation_in x HP (or_introl eq_refl)) as [-> | Hin];
          [lia | now apply Hy]. }
      assert (Hyx : (x <= y)%nat).
      { pose proof (Permutation_in y (Permutation_sym HP) (or_introl eq_refl))
          as [-> | Hin]; [lia | now apply Hx]. }
      assert (x = y) by lia. subst y.
      f_equal. apply IH; [assumption .. |].
      eapply Permutation_cons_inv. exact HP.
Qed.

Lemma gathers_seq {A : Type} (a : list A) (keys : list A) :
  gathers a (seq 0 (length a)) keys -> keys = a.
Proof.
  unfold gathers. intros H. apply nth_error_ext. intros k.
  destruct (Nat.lt_ge_cases k (length a)) as [Hk | Hk].
  - assert (E : nth_error (seq 0 (length a)) k = Some k).
    { rewrite nth_error_seq.
      destruct (Nat.ltb_spec k (length a)); [reflexivity | lia]. }
    destruct (Forall2_nth_error_l _ _ _ H k k E) as (y & Hy & Hay).
    congruence.
  - pose proof (Forall2_same_length _ _ _ H) as Hlen.
    rewrite length_seq in Hlen.
    rewrite (proj2 (nth_error_None a k)) by lia.
    apply nth_error_None. lia.
Qed.

(** Gathering along a permutation of the indices permutes the array. *)
Lemma gathers_permutation {A : Type} (a : list A) (p : list nat)
  (keys : list A) :
  Permutation p (seq 0 (length a)) -> gathers a p keys ->
  Permutation keys a.
Proof.
  intros HP HG.
  destruct (Permutation_Forall2 HP HG) as (keys' & HP' & HG').
  apply gathers_seq in HG'. now subst keys'.
Qed.

(** ** Insertion sort is an argsort *)

Section InsertionSort.

Context {A : Type} {O : Ordered A}.
Variable before : A -> A -> bool.
Hypothesis law : lawful O.
Hypothesis before_true : forall x y, before x y = true -> leb x y = true.
Hypothesis before_false : forall x y, before x y = false -> leb y x = true.

Lemma insert_by_permutation (x : nat * A) (l : list (nat * A)) :
  Permutation (insert_by before x l) (x :: l).
Proof.
  induction l as [| y l IH]; simpl; [reflexivity |].
  destruct (before (snd x) (snd y)); [reflexivity |].
  rewrite IH. apply perm_swap.
Qed.

Lemma sort_by_permutation (l : list (nat * A)) :
  Permutation (sort_by before l) l.
Proof.
  induction l as [| x l IH]; simpl; [reflexivity |].
  rewrite insert_by_permutation. now constructor.
Qed.

Lemma insert_by_sorted (x : nat * A) (l : list (nat * A)) :
  StronglySorted pair_le l -> StronglySorted pair_le (insert_by before x l).
Proof.
  induction 1 as [| y l Hl IH Hy]; simpl.
  - constructor; constructor.
  - destruct (before (snd x) (snd y)) eqn:E.
    + apply before_true in E. constructor.
      * now constructor.
      * constructor; [exact E |].
        rewrite Forall_forall in *. intros z Hz.
        eapply (leb_trans _ law); [exact E | now apply Hy].
    + apply before_false in E. constructor; [exact IH |].
      rewrite Forall_forall in *. intros z Hz.
      apply (Permutation_in _ (insert_by_permutation x l)) in Hz.
      destruct Hz as [<- | Hz]; [exact E | now apply Hy].
Qed.

Lemma sort_by_sorted (l : list (nat * A)) :
  StronglySorted pair_le (sort_by before l).
Proof.
  induction l as [| x l IH]; simpl; [constructor |].
  now apply insert_by_sorted.
Qed.

Lemma enumerate_fst (a : list A) :
  map fst (enumerate a) = seq 0 (length a).
Proof.
  unfold enumerate. generalize 0%nat.
  induction a as [| x a IH]; intros start; simpl; [reflexivity |].
  now rewrite IH.
Qed.

Lemma enumerate_in (a : list A) (i : nat) (x : A) :
  In (i, x) (enumerate a) -> nth_error a i = Some x.
Proof.
  unfold enumerate.
  assert (G : forall start, In (i, x) (combine (seq start (length a)) a) ->
                            (start <= i)%nat /\
                            nth_error a (i - start) = Some x).
  { induction a as [| y a IH]; intros start; simpl; [contradiction |].
    intros [H | H].
    - injection H as <- <-. rewrite Nat.sub_diag. split; [lia | reflexivity].
    - destruct (IH (S start) H) as [Hle Hnth]. split; [lia |].
      replace (i - start)%nat with (S (i - S start)) by lia. exact Hnth. }
  intros H. destruct (G 0%nat H) as [_ Hnth].
  now rewrite Nat.sub_0_r in Hnth.
Qed.

Lemma insertion_argsort (a : list A) :
  is_argsort a (map fst (sort_by before (enumerate a))).
Proof.
  split.
  - rewrite <- (enumerate_fst a). apply Permutation_map, sort_by_permutation.
  - exists (map snd (sort_by before (enumerate a))). split.
    + unfold gathers.
      assert (Hin : forall e, In e (sort_by before (enumerate a)) ->
                              nth_error a (fst e) = Some (snd e)).
      { intros [i x] He. apply enumerate_in.
        apply (Permutation_in _ (sort_by_permutation _)). exact He. }
      induction (sort_by before (enumerate a)) as [| e l IH]; simpl.
      * constructor.
      * constructor; [apply Hin; now left |].
        apply IH. intros e' He'. apply Hin. now right.
    + pose proof (sort_by_sorted (enumerate a)) as HS.
      induction HS as [| e l _ IH He]; simpl; constructor; [exact IH |].
      rewrite Forall_forall in *. intros y Hy.
      apply in_map_iff in Hy. destruct Hy as (e' & <- & He').
      now apply He.
Qed.

End InsertionSort.

Lemma lawful_total_false {A : Type} (O : Ordered A) :
  lawful O -> forall x y, leb x y = false -> leb y x = true.
Proof.
  intros law x y H. destruct (leb_total _ law x y); congruence.
Qed.

Lemma argsort_stable_contract : argsort_contract argsort_stable.
Proof.
  intros A O law a. unfold argsort_stable.
  apply insertion_argsort; [exact law | auto |].
  now apply lawful_total_false.
Qed.

Lemma argsort_ties_reversed_contract : argsort_contract argsort_ties_reversed.
Proof.
  intros A O law a. unfold argsort_ties_reversed.
  apply insertion_argsort; [exact law | |].
  - intros x y H. apply negb_true_iff in H. now apply lawful_total_false.
  - intros x y H. now apply negb_false_iff in H.
Qed.

(** ** Insertion sort with [leb] is stable *)

Section Stable.

Context {A : Type} {O : Ordered A}.
Hypothesis law : lawful O.

Lemma insert_by_stable (x : nat * A) (l : list (nat * A)) :
  StronglySorted stable_le l ->
  Forall (fun y => (fst x < fst y)%nat) l ->
  StronglySorted stable_le (insert_by leb x l).
Proof.
  induction 1 as [| y l Hl IH Hy]; intros Hx; simpl.
  - constructor; constructor.
  - apply Forall_cons_iff in Hx. destruct Hx as [Hxy Hx].
    destruct (leb (snd x) (snd y)) eqn:E.
    + constructor; [now constructor |].
      constructor; [split; [exact E | intros _; exact Hxy] |].
      rewrite Forall_forall in *. intros z Hz. split.
      * eapply (leb_trans _ law); [exact E | now apply Hy].
      * intros _. now apply Hx.
    + constructor; [now apply IH |].
      rewrite Forall_forall in *. intros z Hz.
      apply (Permutation_in _ (insert_by_permutation leb x l)) in Hz.
      destruct Hz as [<- | Hz]; [| now apply Hy].
      split; [now apply lawful_total_false | congruence].
Qed.

Lemma sort_by_stable (l : list (nat * A)) :
  StronglySorted lt (map fst l) ->
  StronglySorted stable_le (sort_by leb l).
Proof.
  induction l as [| x l IH]; simpl; intros H; [constructor |].
  apply StronglySorted_inv in H. destruct H as [Hl Hx].
  apply insert_by_stable; [now apply IH |].
  rewrite Forall_forall in *. intros y Hy.
  apply (Permutation_in _ (sort_by_permutation leb l)) in Hy.
  apply Hx. now apply in_map.
Qed.

Lemma StronglySorted_lt_seq (start len : nat) :
  StronglySorted lt (seq start len).
Proof.
  revert start. induction len as [| len IH]; intros start; simpl.
  - constructor.
  - constructor; [apply IH |].
    apply Forall_forall. intros x Hx. apply in_seq in Hx. lia.
Qed.

Lemma argsort_stable_is_stable (a : list A) :
  is_stable a (argsort_stable _ _ a).
Proof.
  unfold argsort_stable. intros k1 k2 i1 i2 x1 x2 Hk H1 H2 Hx1 Hx2 Hle.
  assert (HS : StronglySorted stable_le (sort_by leb (enumerate a))).
  { apply sort_by_stable. rewrite enumerate_fst. apply StronglySorted_lt_seq. }
  rewrite nth_error_map in H1, H2.
  destruct (nth_error (sort_by leb (enumerate a)) k1) as [[i1' y1] |] eqn:E1;
    [| discriminate].
  destruct (nth_error (sort_by leb (enumerate a)) k2) as [[i2' y2] |] eqn:E2;
    [| discriminate].
  simpl in H1, H2. injection H1 as ->. injection H2 as ->.
  assert (Hy1 : nth_error a i1 = Some y1).
  { apply enumerate_in.
    apply (Permutation_in _ (sort_by_permutation leb _)).
    eapply nth_error_In. exact E1. }
  assert (Hy2 : nth_error a i2 = Some y2).
  { apply enumerate_in.
    apply (Permutation_in _ (sort_by_permutation leb _)).
    eapply nth_error_In. exact E2. }
  assert (y1 = x1) by congruence. assert (y2 = x2) by congruence. subst y1 y2.
  destruct (StronglySorted_nth_error _ _ HS k1 k2 _ _ Hk E1 E2) as [_ Htie].
  now apply Htie.
Qed.

End Stable.

(** ** The orders of ints and floats *)

Lemma Rleb_true (x y : R) : Rleb x y = true <-> x <= y.
Proof.
  unfold Rleb. destruct (Rle_dec x y); split; intros; auto; discriminate.
Qed.

Lemma Rleb_false (x y : R) : Rleb x y = false <-> y < x.
Proof.
  unfold Rleb. destruct (Rle_dec x y); split; intros; auto;
    try discriminate; lra.
Qed.

Lemma lawful_nat : lawful Ordered_nat.
Proof.
  constructor; simpl.
  - intros x y. rewrite !Nat.leb_le. lia.
  - intros x y z. rewrite !Nat.leb_le. lia.
Qed.

Lemma lawful_npfloat : lawful Ordered_npfloat.
Proof.
  constructor; simpl.
  - intros [a | | | ] [b | | | ]; simpl; auto.
    rewrite !Rleb_true. lra.
  - intros [a | | | ] [b | | | ] [c | | | ]; simpl; auto; try discriminate.
    rewrite !Rleb_true. lra.
Qed.

(** ** Ranks: the argsort of an argsort *)

Section DoubleArgsort.

Context {A : Type} {O : Ordered A}.
Variables (a : list A) (p q : list nat).
Hypothesis law : lawful O.
Hypothesis Hp : is_argsort a p.
Hypothesis Hq : is_argsort p q.

Lemma argsort_length : length p = length a.
Proof.
  destruct Hp as [HP _]. apply Permutation_length in HP.
  now rewrite length_seq in HP.
Qed.

(** The second argsort inverts the first: [p[q[i]] = i]. *)
Lemma argsort_argsort_gathers : gathers p q (seq 0 (length a)).
Proof.
  destruct Hq as (HQ & keys & HG & HS).
  assert (E : keys = seq 0 (length a)).
  { apply StronglySorted_le_unique.
    - clear -HS. induction HS as [| x l _ IH Hx]; constructor; [exact IH |].
      rewrite Forall_forall in *. intros y Hy.
      apply Nat.leb_le. now apply Hx.
    - apply StronglySorted_seq.
    - rewrite (gathers_permutation p q keys HQ HG). apply Hp. }
  now rewrite E in HG.
Qed.

Lemma rank_position (i : nat) :
  (i < length a)%nat ->
  exists k, nth_error q i = Some k /\ nth_error p k = Some i /\
            (k < length a)%nat.
Proof.
  intros Hi.
  pose proof argsort_argsort_gathers as HG.
  pose proof (Forall2_same_length _ _ _ HG) as Hlen.
  rewrite length_seq in Hlen.
  destruct (nth_error q i) as [k |] eqn:Hk.
  - exists k. split; [reflexivity |].
    destruct (Forall2_nth_error_l _ _ _ HG i k Hk) as (y & Hy & Hpk).
    rewrite nth_error_seq in Hy.
    destruct (Nat.ltb_spec i (length a)); [| lia].
    injection Hy as <-. split; [exact Hpk |].
    rewrite <- argsort_length. apply nth_error_Some. congruence.
  - apply nth_error_None in Hk. lia.
Qed.

(** An object whose entry is strictly smaller stands earlier. *)
Lemma rank_strict (i j ki kj : nat) (x y : A) :
  nth_error a i = Some x -> nth_error a j = Some y ->
  nth_error q i = Some ki -> nth_error q j = Some kj ->
  leb y x = false -> (ki < kj)%nat.
Proof.
  intros Hx Hy Hki Hkj Hlt.
  assert (Hi : (i < length a)%nat) by (apply nth_error_Some; congruence).
  assert (Hj : (j < length a)%nat) by (apply nth_error_Some; congruence).
  destruct (rank_position i Hi) as (ki' & E1 & Hpi & _).
  destruct (rank_position j Hj) as (kj' & E2 & Hpj & _).
  assert (ki' = ki) by congruence. assert (kj' = kj) by congruence.
  subst ki' kj'. clear E1 E2.
  destruct Hp as (_ & keys & HG & HS).
  destruct (Forall2_nth_error_l _ _ _ HG ki i Hpi) as (x' & Hx' & Hax).
  destruct (Forall2_nth_error_l _ _ _ HG kj j Hpj) as (y' & Hy' & Hay).
  assert (x' = x) by congruence. assert (y' = y) by congruence. subst x' y'.
  destruct (Nat.lt_total ki kj) as [H | [H | H]]; [exact H | |].
  - subst kj. assert (i = j) by congruence. subst j.
    assert (x = y) by congruence. subst y.
    destruct (leb_total _ law x x); congruence.
  - pose proof (StronglySorted_nth_error _ _ HS kj ki y x H Hy' Hx').
    simpl in *. congruence.
Qed.

(** An object that stands earlier has an entry that is not greater. *)
Lemma rank_weak (i j ki kj : nat) (x y : A) :
  nth_error a i = Some x -> nth_error a j = Some y ->
  nth_error q i = Some ki -> nth_error q j = Some kj ->
  (ki < kj)%nat -> leb x y = true.
Proof.
  intros Hx Hy Hki Hkj Hlt.
  destruct (leb x y) eqn:E; [reflexivity |].
  pose proof (rank_strict j i kj ki y x Hy Hx Hkj Hki E). lia.
Qed.

Lemma rank_permutation :
  Permutation (map (fun k => (k + 1)%nat) q) (seq 1 (length a)).
Proof.
  destruct Hq as [HQ _]. rewrite argsort_length in HQ.
  rewrite <- seq_shift.
  rewrite (map_ext (fun k => (k + 1)%nat) S) by (intros; lia).
  now apply Permutation_map.
Qed.

(** After a stable first sort, of two objects with equal entries the one
    of lower index stands earlier. *)
Lemma rank_tie (i j ki kj : nat) (x y : A) :
  is_stable a p ->
  nth_error a i = Some x -> nth_error a j = Some y ->
  nth_error q i = Some ki -> nth_error q j = Some kj ->
  leb x y = true -> (i < j)%nat -> (ki < kj)%nat.
Proof.
  intros Hst Hx Hy Hki Hkj Hle Hij.
  assert (Hi : (i < length a)%nat) by (apply nth_error_Some; congruence).
  assert (Hj : (j < length a)%nat) by (apply nth_error_Some; congruence).
  destruct (rank_position i Hi) as (ki' & E1 & Hpi & _).
  destruct (rank_position j Hj) as (kj' & E2 & Hpj & _).
  assert (ki' = ki) by congruence. assert (kj' = kj) by congruence.
  subst ki' kj'. clear E1 E2.
  destruct (Nat.lt_total ki kj) as [H | [H | H]]; [exact H | |].
  - subst kj. assert (i = j) by congruence. lia.
  - pose proof (Hst kj ki j i y x H Hpj Hpi Hy Hx Hle). lia.
Qed.

Lemma rank_distinct (i j k : nat) :
  nth_error q i = Some k -> nth_error q j = Some k -> i = j.
Proof.
  intros Hi Hj. destruct Hq as [HQ _].
  assert (ND : NoDup q).
  { apply (Permutation_NoDup (Permutation_sym HQ)), seq_NoDup. }
  apply (proj1 (NoDup_nth_error q) ND).
  - apply nth_error_Some. congruence.
  - congruence.
Qed.

End DoubleArgsort.

(** ** The shape of the results *)

Section Shape.

Variable minimize : optimizer.
Variable argsort : argsort_t.
Hypothesis minimize_ok : returns_on_total minimize.

Variables (graphs : list graph) (h l : R) (n : Z).
Hypothesis Hn : num_vertices graphs = Ok n.
Hypothesis Hv : valid_corpus graphs.
Hypothesis Hh : 0 <= h <= 1.

(** The optimizer returns a vector of [n] log-scores, and the scores are
    their exponentials, standardized on request. *)
Lemma estimate_bt_scores_shape :
  exists x : list R,
    minimize (negative_log_likelihood graphs h l) (repeat 1 (Z.to_nat n))
    = Ok x /\
    length x = Z.to_nat n /\
    forall std : bool,
      estimate_bt_scores minimize graphs std h l
      = Ok (if std then zscore (map exp x) else map Fin (map exp x)).
Proof.
  destruct (minimize_ok
              (negative_log_likelihood graphs h l) (repeat 1 (Z.to_nat n)))
    as (x & Hx & Hlen).
  - rewrite repeat_length.
    now apply negative_log_likelihood_total.
  - rewrite repeat_length in Hlen. exists x. repeat split; try assumption.
    intros std. unfold estimate_bt_scores. rewrite Hn. simpl.
    unfold initial_guess. rewrite Hx. simpl. destruct std; reflexivity.
Qed.

Lemma estimate_bt_ranks_shape (scores : list R) :
  estimate_bt_scores minimize graphs false h l = Ok (map Fin scores) ->
  estimate_bt_ranks minimize argsort graphs h l
  = Ok (map (fun k => (k + 1)%nat)
          (argsort _ _ (argsort _ _ (map np_neg (map Fin scores))))).
Proof.
  intros H. unfold estimate_bt_ranks. rewrite H. reflexivity.
Qed.

End Shape.

Lemma num_vertices_positive (graphs : list graph) (n : Z) :
  num_vertices graphs = Ok n -> valid_corpus graphs -> (1 <= n)%Z.
Proof.
  intros Hn Hv.
  destruct (num_vertices_is_max _ _ Hn) as [(j & i & Hin & ->) _].
  destruct (valid_corpus_edges _ Hv j i Hin). lia.
Qed.

Lemma nth_error_negated (scores : list R) (i : nat) (x : R) :
  nth_error scores i = Some x ->
  nth_error (map np_neg (map Fin scores)) i = Some (Fin (- x)).
Proof.
  intros H. rewrite map_map.
  rewrite nth_error_map, H. reflexivity.
Qed.

(** The ranks that the double argsort gives to a vector of scores. *)
Lemma ranks_order (argsort : argsort_t) (scores : list R) :
  argsort_contract argsort ->
  let ranks := map (fun k => (k + 1)%nat)
                 (argsort _ _ (argsort _ _ (map np_neg (map Fin scores)))) in
  Permutation ranks (seq 1 (length scores)) /\
  forall i j si sj ri rj,
    nth_error scores i = Some si -> nth_error scores j = Some sj ->
    nth_error ranks i = Some ri -> nth_error ranks j = Some rj ->
    (sj < si -> (ri < rj)%nat) /\
    ((ri < rj)%nat -> sj <= si) /\
    (ri = rj -> i = j).
Proof.
  intros Hsort ranks.
  set (a := map np_neg (map Fin scores)) in *.
  set (p := argsort _ _ a) in *. set (q := argsort _ _ p) in *.
  assert (Hp : is_argsort a p) by (apply Hsort, lawful_npfloat).
  assert (Hq : is_argsort p q) by (apply Hsort, lawful_nat).
  assert (Hlen : length a = length scores)
    by (unfold a; now rewrite !length_map).
  split.
  - rewrite <- Hlen. now apply (rank_permutation a p q).
  - intros i j si sj ri rj Hsi Hsj Hri Hrj.
    unfold ranks in Hri, Hrj. rewrite nth_error_map in Hri, Hrj.
    destruct (nth_error q i) as [ki |] eqn:Hki; [| discriminate].
    destruct (nth_error q j) as [kj |] eqn:Hkj; [| discriminate].
    simpl in Hri, Hrj. injection Hri as <-. injection Hrj as <-.
    pose proof (nth_error_negated scores i si Hsi) as Hai.
    pose proof (nth_error_negated scores j sj Hsj) as Haj.
    fold a in Hai, Haj.
    repeat split.
    + intros Hlt.
      assert ((ki < kj)%nat); [| lia].
      apply (rank_strict a p q lawful_npfloat Hp Hq i j ki kj _ _
               Hai Haj Hki Hkj).
      simpl. apply Rleb_false. lra.
    + intros Hlt.
      assert (Hle : leb (Fin (- si)) (Fin (- sj)) = true).
      { apply (rank_weak a p q lawful_npfloat Hp Hq i j ki kj _ _
                 Hai Haj Hki Hkj). lia. }
      simpl in Hle. apply Rleb_true in Hle. lra.
    + intros E. assert (ki = kj) by lia. subst kj.
      apply (rank_distinct p q Hq i j ki Hki Hkj).
Qed.

(** ** Mean, standard deviation and z-scores *)

Lemma INR_length_pos {A : Type} (a : list A) : a <> [] -> 0 < INR (length a).
Proof.
  intros H. destruct a as [| x a]; [contradiction |].
  apply lt_0_INR. simpl. lia.
Qed.

Lemma Rsum_map_scaled (m c : R) (a : list R) :
  Rsum (map (fun x => (x - m) * c) a) = (Rsum a - INR (length a) * m) * c.
Proof.
  unfold Rsum. induction a as [| x a IH].
  - simpl. lra.
  - cbn [map fold_right length]. rewrite IH, S_INR. lra.
Qed.

Lemma Rsum_map_mult (c : R) (f : R -> R) (a : list R) :
  Rsum (map (fun x => f x * c) a) = Rsum (map f a) * c.
Proof.
  unfold Rsum. induction a as [| x a IH]; simpl; [lra | rewrite IH; lra].
Qed.

Lemma Rsum_nonneg (a : list R) : Forall (fun x => 0 <= x) a -> 0 <= Rsum a.
Proof.
  unfold Rsum. induction 1 as [| x a Hx _ IH]; simpl; lra.
Qed.

Lemma Rsum_nonneg_zero (a : list R) :
  Forall (fun x => 0 <= x) a -> Rsum a = 0 -> Forall (fun x => x = 0) a.
Proof.
  induction 1 as [| x a Hx Ha IH]; intros H; constructor.
  - pose proof (Rsum_nonneg a Ha). unfold Rsum in *. simpl in H. lra.
  - apply IH. pose proof (Rsum_nonneg a Ha). unfold Rsum in *. simpl in H. lra.
Qed.

Lemma squares_nonneg (m : R) (a : list R) :
  Forall (fun x => 0 <= x) (map (fun x => (x - m) * (x - m)) a).
Proof.
  apply Forall_forall. intros y Hy. apply in_map_iff in Hy.
  destruct Hy as (x & <- & _). apply Rle_0_sqr.
Qed.

(** The population variance, whose square root [std] is. *)
Lemma variance_nonneg (a : list R) :
  0 <= mean (map (fun x => (x - mean a) * (x - mean a)) a).
Proof.
  unfold mean at 1. rewrite length_map.
  destruct a as [| x a].
  - simpl. unfold Rsum. simpl. lra.
  - apply Rmult_le_pos.
    + apply Rsum_nonneg, squares_nonneg.
    + left. apply Rinv_0_lt_compat, INR_length_pos. discriminate.
Qed.

Lemma std_square (a : list R) :
  std a * std a = mean (map (fun x => (x - mean a) * (x - mean a)) a).
Proof. unfold std. apply sqrt_def, variance_nonneg. Qed.

(** A zero standard deviation means that every entry is the mean. *)
Lemma std_zero_all_mean (a : list R) :
  std a = 0 -> forall x, In x a -> x = mean a.
Proof.
  intros H x Hx.
  assert (Hvar : mean (map (fun x => (x - mean a) * (x - mean a)) a) = 0).
  { rewrite <- std_square, H. lra. }
  assert (Hne : a <> []) by (intros ->; contradiction).
  unfold mean at 1 in Hvar. rewrite length_map in Hvar.
  pose proof (INR_length_pos a Hne) as Hpos.
  assert (Hsum : Rsum (map (fun x => (x - mean a) * (x - mean a)) a) = 0).
  { apply (Rmult_eq_reg_r (/ INR (length a))).
    - unfold Rdiv in Hvar. rewrite Hvar. lra.
    - apply Rinv_neq_0_compat. lra. }
  pose proof (Rsum_nonneg_zero _ (squares_nonneg (mean a) a) Hsum) as Hall.
  rewrite Forall_forall in Hall.
  assert (Hsq : (x - mean a) * (x - mean a) = 0).
  { apply Hall. apply in_map_iff. exists x. split; [reflexivity | exact Hx]. }
  nra.
Qed.

Lemma mean_constant (c : R) (a : list R) :
  a <> [] -> (forall x, In x a -> x = c) -> mean a = c.
Proof.
  intros Hne Hc. pose proof (INR_length_pos a Hne) as Hpos.
  assert (E : Rsum a = INR (length a) * c).
  { clear Hne Hpos. unfold Rsum. induction a as [| x a IH].
    - simpl. lra.
    - cbn [fold_right length]. rewrite S_INR.
      rewrite IH by (intros y Hy; apply Hc; now right).
      rewrite (Hc x (or_introl eq_refl)). lra. }
  unfold mean. rewrite E. field. lra.
Qed.

Lemma std_constant (c : R) (a : list R) :
  (forall x, In x a -> x = c) -> std a = 0.
Proof.
  intros Hc. destruct a as [| y a'] eqn:Ea.
  - unfold std, mean, Rsum. simpl. unfold Rdiv. rewrite Rmult_0_l.
    apply sqrt_0.
  - rewrite <- Ea in *. assert (Hne : a <> []) by (rewrite Ea; discriminate).
    pose proof (mean_constant c a Hne Hc) as Hm.
    unfold std. rewrite Hm.
    assert (E : map (fun x => (x - c) * (x - c)) a = map (fun _ => 0) a).
    { apply map_ext_in. intros x Hx. rewrite (Hc x Hx). lra. }
    rewrite E.
    rewrite (mean_constant 0); [apply sqrt_0 | |].
    + destruct a; [contradiction | discriminate].
    + intros x Hx. apply in_map_iff in Hx. now destruct Hx as (_ & <- & _).
Qed.

(** The standard deviation vanishes exactly on constant arrays. *)
Lemma std_zero_iff (a : list R) :
  std a = 0 <-> forall x y, In x a -> In y a -> x = y.
Proof.
  split.
  - intros H x y Hx Hy.
    rewrite (std_zero_all_mean a H x Hx), (std_zero_all_mean a H y Hy).
    reflexivity.
  - intros H. destruct a as [| c a].
    + apply (std_constant 0). intros x [].
    + apply (std_constant c). intros x Hx. apply H; [exact Hx | now left].
Qed.

Lemma zscore_finite (a : list R) :
  std a <> 0 ->
  zscore a = map Fin (map (fun x => (x - mean a) / std a) a).
Proof.
  intros H. unfold zscore. rewrite map_map. apply map_ext. intros x.
  unfold np_div. destruct (Req_dec_T (std a) 0); [contradiction | reflexivity].
Qed.

Lemma zscore_nan (a : list R) :
  std a = 0 -> zscore a = map (fun _ => NaN) a.
Proof.
  intros H. unfold zscore. apply map_ext_in. intros x Hx.
  rewrite (std_zero_all_mean a H x Hx). unfold np_div.
  destruct (Req_dec_T (std a) 0); [| contradiction].
  destruct (Req_dec_T (mean a - mean a) 0); [reflexivity | lra].
Qed.

Lemma std_nonzero_nonempty (a : list R) : std a <> 0 -> a <> [].
Proof.
  intros H ->. apply H. apply (std_constant 0). intros x [].
Qed.

Lemma standardized_mean (a : list R) :
  std a <> 0 -> mean (map (fun x => (x - mean a) / std a) a) = 0.
Proof.
  intros H. pose proof (INR_length_pos a (std_nonzero_nonempty a H)) as Hpos.
  unfold mean at 1. rewrite length_map. unfold Rdiv at 2.
  rewrite Rsum_map_scaled.
  replace (Rsum a - INR (length a) * mean a) with 0.
  - unfold Rdiv. lra.
  - unfold mean. field. lra.
Qed.

Lemma standardized_std (a : list R) :
  std a <> 0 -> std (map (fun x => (x - mean a) / std a) a) = 1.
Proof.
  intros H. pose proof (INR_length_pos a (std_nonzero_nonempty a H)) as Hpos.
  unfold std at 1. rewrite (standardized_mean a H). rewrite map_map.
  rewrite (map_ext _ (fun x => (x - mean a) * (x - mean a)
                               * (/ std a * / std a)))
    by (intros x; unfold Rdiv; lra).
  unfold mean at 1. rewrite length_map, Rsum_map_mult.
  replace (Rsum (map (fun x => (x - mean a) * (x - mean a)) a)
           * (/ std a * / std a) / INR (length a))
    with (mean (map (fun x => (x - mean a) * (x - mean a)) a)
          * (/ std a * / std a)).
  - rewrite <- std_square.
    replace (std a * std a * (/ std a * / std a)) with 1 by (field; exact H).
    apply sqrt_1.
  - unfold mean. rewrite length_map. field. lra.
Qed.

(** ** Opposite preferences *)

Lemma spec_log10_le (x y : R) :
  0 < x -> x <= y -> spec_log10 x <= spec_log10 y.
Proof.
  intros Hx [Hlt | ->]; [| lra]. left. now apply spec_log10_increasing.
Qed.

Lemma spec_reg_term_le (x : R) : spec_reg_term x <= spec_reg_term s_vo.
Proof.
  destruct (Req_dec_T x s_vo) as [-> | Hne]; [lra |].
  left. apply spec_reg_term_decreasing.
  replace (s_vo - s_vo) with 0 by lra. rewrite Rabs_R0.
  apply Rabs_pos_lt. lra.
Qed.

(** The likelihood of two opposite preferences is greatest when the two
    objects are equally likely to win. *)
Lemma opposite_terms_le (h p q : R) :
  0 <= h <= 1 -> 0 < p -> 0 < q -> p + q = 1 ->
  spec_log10 (h * p + (1 - h) * q) + spec_log10 (h * q + (1 - h) * p)
  <= spec_log10 (/ 2) + spec_log10 (/ 2).
Proof.
  intros Hh Hp Hq Hpq.
  pose proof (mix_pos h p q Hh Hp Hq) as Hu.
  pose proof (mix_pos h q p Hh Hq Hp) as Hw.
  set (u := h * p + (1 - h) * q) in *. set (w := h * q + (1 - h) * p) in *.
  assert (Huw : u + w = 1) by (unfold u, w; nra).
  rewrite <- !spec_log10_mult by lra.
  apply spec_log10_le; [now apply Rmult_lt_0_compat |].
  assert (0 <= (u - w) * (u - w)) by apply Rle_0_sqr.
  nra.
Qed.

(** ** Sums and permutations *)

Lemma Rsum_permutation (xs ys : list R) :
  Permutation xs ys -> Rsum xs = Rsum ys.
Proof.
  unfold Rsum. induction 1; simpl; lra.
Qed.

(** A sum returns exactly when each of its terms does. *)
Lemma py_sum_from_iff {A : Type} (f : A -> result R) (xs : list A)
  (acc v : R) :
  py_sum_from f xs acc = Ok v <->
  exists vs, Forall2 (fun x y => f x = Ok y) xs vs /\ v = acc + Rsum vs.
Proof.
  revert acc. induction xs as [| x xs IH]; intros acc; simpl.
  - split.
    + intros H. injection H as <-. exists []. split; [constructor |].
      unfold Rsum. simpl. lra.
    + intros (vs & HF & ->). inversion HF. unfold Rsum. simpl.
      f_equal. lra.
  - split.
    + intros H. apply bind_ok_inv in H. destruct H as (y & Hy & H).
      apply IH in H. destruct H as (vs & HF & ->).
      exists (y :: vs). split; [now constructor |].
      unfold Rsum. simpl. lra.
    + intros (vs & HF & ->). inversion HF as [| ? y ? vs' Hy HF']; subst.
      rewrite Hy. simpl. apply IH. exists vs'. split; [exact HF' |].
      unfold Rsum. simpl. lra.
Qed.

(** The sum over a sequence with one more element [x0], in any order. *)
Lemma py_sum_permutation_cons {A : Type} (f : A -> result R)
  (x0 : A) (c : R) (xs xs' : list A) (v : R) :
  Permutation xs' (x0 :: xs) -> f x0 = Ok c ->
  py_sum f xs' = Ok v <-> py_sum f xs = Ok (v - c).
Proof.
  intros HP Hc. unfold py_sum. rewrite !py_sum_from_iff. split.
  - intros (vs' & HF & ->).
    destruct (Permutation_Forall2 HP HF) as (l2 & HP2 & HF2).
    inversion HF2 as [| ? y ? vs Hy HF3]; subst.
    exists vs. split; [exact HF3 |].
    rewrite (Rsum_permutation _ _ HP2). assert (y = c) by congruence.
    subst y. unfold Rsum. simpl. lra.
  - intros (vs & HF & Hv).
    assert (HF2 : Forall2 (fun x y => f x = Ok y) (x0 :: xs) (c :: vs))
      by now constructor.
    destruct (Permutation_Forall2 (Permutation_sym HP) HF2)
      as (l2 & HP2 & HF3).
    exists l2. split; [exact HF3 |].
    rewrite <- (Rsum_permutation _ _ HP2). unfold Rsum in *. simpl. lra.
Qed.

Lemma getitem_ok_iff (s : list R) (i : Z) :
  is_ok (getitem s i) <->
  (- Z.of_nat (length s) <= i < Z.of_nat (length s))%Z.
Proof.
  split.
  - intros [x Hx].
    destruct (Z_lt_le_dec i (- Z.of_nat (length s))) as [H1 | H1];
      [rewrite getitem_out_of_range in Hx by lia; discriminate |].
    destruct (Z_lt_le_dec i (Z.of_nat (length s))) as [H2 | H2]; [lia |].
    rewrite getitem_out_of_range in Hx by lia. discriminate.
  - intros H. destruct (Z_lt_le_dec i 0).
    + rewrite getitem_wraps by lia. eexists. reflexivity.
    + rewrite getitem_nonneg by lia. eexists. reflexivity.
Qed.

(** ** Self-loops *)

(** The likelihood term of a self-loop is [log10(1/2)], whatever the
    score of its object and whatever the preference accuracy. *)
Lemma edge_term_self_loop (h : R) (s : list R) (i : Z) :
  is_ok (getitem s i) -> edge_term h s (i, i) = Ok (spec_log10 (/ 2)).
Proof.
  intros [x Hx]. unfold edge_term. rewrite Hx. simpl.
  rewrite bt_ok. simpl. rewrite spec_bt_same.
  replace (h * / 2 + (1 - h) * / 2) with (/ 2) by lra.
  apply log10_ok. lra.
Qed.

Lemma negative_log_likelihood_iff (graphs : list graph) (h l : R)
  (s : list R) (v : R) :
  negative_log_likelihood graphs h l s = Ok v <->
  exists L, py_sum (edge_term h s) (all_edges graphs) = Ok L /\
            v = - (L + l * spec_R s).
Proof.
  unfold negative_log_likelihood. rewrite reg_sum_ok. split.
  - intros H. apply bind_ok_inv in H. destruct H as (L & HL & H).
    simpl in H. injection H as <-. exists L. split; [exact HL | lra].
  - intros (L & HL & ->). rewrite HL. simpl. f_equal. lra.
Qed.

Lemma Forall2_values {A : Type} (f : A -> result R) (g : A -> R)
  (xs : list A) (vs : list R) :
  Forall2 (fun x y => f x = Ok y) xs vs ->
  (forall x y, In x xs -> f x = Ok y -> y = g x) ->
  vs = map g xs.
Proof.
  induction 1 as [| x y xs vs Hy _ IH]; intros H; [reflexivity |].
  simpl. f_equal.
  - apply H; [now left | exact Hy].
  - apply IH. intros x' y' Hx'. apply H. now right.
Qed.

Lemma log10_value (x y : R) : log10 x = Ok y -> y = spec_log10 x.
Proof.
  unfold log10, spec_log10. destruct (Rlt_dec 0 x); congruence.
Qed.

Lemma edge_term_value (h : R) (s : list R) (j i : Z) (y : R) :
  (0 <= i < Z.of_nat (length s))%Z -> (0 <= j < Z.of_nat (length s))%Z ->
  edge_term h s (j, i) = Ok y -> y = spec_edge_term h s (j, i).
Proof.
  intros Hi Hj. unfold edge_term, spec_edge_term.
  rewrite (getitem_nonneg s i Hi). simpl.
  rewrite (getitem_nonneg s j Hj). simpl.
  rewrite !bt_ok. simpl. apply log10_value.
Qed.

(** Whatever the preference accuracy, a value that the objective returns
    is the one of the specification. *)
Lemma negative_log_likelihood_value (graphs : list graph) (h l : R)
  (n : Z) (s : list R) (v : R) :
  num_vertices graphs = Ok n ->
  valid_corpus graphs ->
  length s = Z.to_nat n ->
  negative_log_likelihood graphs h l s = Ok v ->
  v = spec_objective h l graphs s.
Proof.
  intros Hn Hv Hlen H. apply negative_log_likelihood_iff in H.
  destruct H as (L & HL & ->). unfold spec_objective. do 2 f_equal.
  unfold py_sum in HL. apply py_sum_from_iff in HL.
  destruct HL as (vs & HF & ->). rewrite spec_L_all_edges, Rplus_0_l.
  f_equal. apply (Forall2_values _ _ _ _ HF).
  intros [j i] y Hji Hy.
  destruct (num_vertices_above _ _ Hn j i Hji).
  destruct (valid_corpus_edges _ Hv j i Hji).
  apply edge_term_value; [lia | lia | exact Hy].
Qed.

Section SelfLoop.

Variables (before after : list graph) (g g' : graph) (i : Z).
Hypothesis added : Permutation g' ((i, i) :: g).

Lemma self_loop_all_edges :
  Permutation (all_edges (before ++ g' :: after))
    ((i, i) :: all_edges (before ++ g :: after)).
Proof.
  unfold all_edges. rewrite !concat_app. simpl.
  rewrite added. simpl.
  symmetry. apply Permutation_middle.
Qed.

Lemma self_loop_objective (h l : R) (s : list R) (v : R) :
  is_ok (getitem s i) ->
  negative_log_likelihood (before ++ g :: after) h l s = Ok v <->
  negative_log_likelihood (before ++ g' :: after) h l s
  = Ok (v - spec_log10 (/ 2)).
Proof.
  intros Hi. rewrite !negative_log_likelihood_iff. split.
  - intros (L & HL & ->). exists (L + spec_log10 (/ 2)). split; [| lra].
    apply (py_sum_permutation_cons _ _ _ _ _ _ self_loop_all_edges
             (edge_term_self_loop h s i Hi)).
    rewrite HL. f_equal. lra.
  - intros (L' & HL' & Hv).
    apply (py_sum_permutation_cons _ _ _ _ _ _ self_loop_all_edges
             (edge_term_self_loop h s i Hi)) in HL'.
    exists (L' - spec_log10 (/ 2)). split; [exact HL' | lra].
Qed.

Lemma self_loop_minimum (h l : R) (x0 : list R) :
  is_ok (getitem x0 i) ->
  global_minimum (negative_log_likelihood (before ++ g :: after) h l) x0 <->
  global_minimum (negative_log_likelihood (before ++ g' :: after) h l) x0.
Proof.
  intros Hi.
  assert (Hlen : forall x, length x = length x0 -> is_ok (getitem x i)).
  { intros x Hx. apply getitem_ok_iff. rewrite Hx.
    now apply getitem_ok_iff. }
  unfold global_minimum. split.
  - intros (v0 & H0 & Hmin). exists (v0 - spec_log10 (/ 2)). split.
    + now apply self_loop_objective.
    + intros x v Hx Hv.
      replace v with (v + spec_log10 (/ 2) - spec_log10 (/ 2)) in Hv by lra.
      apply self_loop_objective in Hv; [| now apply Hlen].
      specialize (Hmin x _ Hx Hv). lra.
  - intros (v0 & H0 & Hmin). exists (v0 + spec_log10 (/ 2)). split.
    + apply self_loop_objective; [exact Hi |].
      rewrite H0. f_equal. lra.
    + intros x v Hx Hv.
      apply self_loop_objective in Hv; [| now apply Hlen].
      specialize (Hmin x _ Hx Hv). lra.
Qed.

End SelfLoop.

(** ** Negative indices *)

Lemma py_max_unique (xs : list Z) (m : Z) :
  In m xs -> (forall y, In y xs -> (y <= m)%Z) -> py_max xs = Ok m.
Proof.
  intros Hin Hub. destruct xs as [| x xs]; [contradiction |].
  destruct (py_max (x :: xs)) as [m' | e] eqn:E; [| discriminate].
  pose proof (py_max_in _ _ E) as Hin'.
  pose proof (py_max_ge _ _ E m Hin) as Hle.
  specialize (Hub m' Hin'). f_equal. lia.
Qed.

Lemma py_sum_from_map {A B : Type} (w : A -> B) (f : B -> result R)
  (xs : list A) (acc : R) :
  py_sum_from f (map w xs) acc = py_sum_from (fun x => f (w x)) xs acc.
Proof.
  revert acc. induction xs as [| x xs IH]; intros acc; simpl; [reflexivity |].
  destruct (f (w x)); simpl; [apply IH | reflexivity].
Qed.

Lemma py_sum_from_ext {A : Type} (f g : A -> result R) (xs : list A)
  (acc : R) :
  (forall x, In x xs -> f x = g x) ->
  py_sum_from f xs acc = py_sum_from g xs acc.
Proof.
  revert acc. induction xs as [| x xs IH]; intros acc H; simpl;
    [reflexivity |].
  rewrite (H x (or_introl eq_refl)).
  destruct (g x); simpl; [| reflexivity].
  apply IH. intros y Hy. apply H. now right.
Qed.

(** A sum whose terms raise nothing but [e], one of them raising it,
    raises [e]. *)
Lemma py_sum_from_raises {A : Type} (f : A -> result R) (e : exn)
  (xs : list A) (acc : R) :
  (forall x, In x xs -> is_ok (f x) \/ f x = Raise e) ->
  (exists x, In x xs /\ f x = Raise e) ->
  py_sum_from f xs acc = Raise e.
Proof.
  revert acc. induction xs as [| x xs IH]; intros acc Hall (x0 & Hin & Hx0).
  - contradiction.
  - simpl. destruct (Hall x (or_introl eq_refl)) as [[v Hv] | Hr].
    + rewrite Hv. simpl. apply IH.
      * intros y Hy. apply Hall. now right.
      * destruct Hin as [-> | Hin]; [congruence | eauto].
    + rewrite Hr. reflexivity.
Qed.

(** An index in [-n, 0) reads the entry that [n + i] reads. *)
Lemma getitem_from_the_end (s : list R) (n i : Z) :
  length s = Z.to_nat n -> (- n <= i < 0)%Z ->
  getitem s i = getitem s (n + i).
Proof.
  intros Hlen Hi.
  assert (E : Z.of_nat (length s) = n) by (rewrite Hlen; lia).
  rewrite getitem_wraps by lia. rewrite getitem_nonneg by lia.
  now rewrite E.
Qed.

Lemma py_sum_from_total {A : Type} (f : A -> result R) (xs : list A)
  (acc : R) :
  (forall x, In x xs -> is_ok (f x)) -> is_ok (py_sum_from f xs acc).
Proof.
  revert acc. induction xs as [| x xs IH]; intros acc H; simpl.
  - eexists. reflexivity.
  - destruct (H x (or_introl eq_refl)) as [v Hv]. rewrite Hv. simpl.
    apply IH. intros y Hy. apply H. now right.
Qed.

Lemma getitem_cases (s : list R) (i : Z) :
  is_ok (getitem s i) \/ getitem s i = Raise IndexError.
Proof.
  destruct (Z_lt_le_dec i (- Z.of_nat (length s)));
    [right; apply getitem_out_of_range; lia |].
  destruct (Z_lt_le_dec i (Z.of_nat (length s)));
    [left; apply getitem_ok_iff; lia |].
  right. apply getitem_out_of_range. lia.
Qed.

Lemma edge_term_cases (h : R) (s : list R) (j i : Z) :
  0 <= h <= 1 ->
  (is_ok (getitem s i) /\ is_ok (getitem s j) /\
   is_ok (edge_term h s (j, i))) \/
  ((~ is_ok (getitem s i) \/ ~ is_ok (getitem s j)) /\
   edge_term h s (j, i) = Raise IndexError).
Proof.
  intros Hh. unfold edge_term.
  destruct (getitem_cases s i) as [[si Hi] | Hi].
  - destruct (getitem_cases s j) as [[sj Hj] | Hj].
    + left. rewrite Hi, Hj. simpl. rewrite !bt_ok. simpl.
      rewrite log10_ok by (apply mix_pos; [exact Hh | apply spec_bt_pos ..]).
      repeat split; eexists; reflexivity.
    + right. rewrite Hi, Hj. simpl. split; [| reflexivity].
      right. intros [x Hx]. congruence.
  - right. rewrite Hi. simpl. split; [| reflexivity].
    left. intros [x Hx]. congruence.
Qed.

(** With an index below [-n] the objective raises [IndexError] on every
    score vector of length [n]. *)
Lemma objective_index_error (graphs : list graph) (h l : R) (n : Z)
  (s : list R) :
  num_vertices graphs = Ok n -> some_index_below (- n) graphs ->
  0 <= h <= 1 -> length s = Z.to_nat n ->
  negative_log_likelihood graphs h l s
  = Raise IndexError.
Proof.
  intros Hn (g & [j i] & Hg & He & Hlow) Hh Hlen.
  unfold negative_log_likelihood, py_sum.
  rewrite (py_sum_from_raises _ IndexError);
    [reflexivity | |].
  - intros [j' i'] _. destruct (edge_term_cases h s j' i' Hh)
      as [(_ & _ & Hok) | [_ Hr]]; auto.
  - exists (j, i). split; [apply in_all_edges; eauto |].
    destruct (edge_term_cases h s j i Hh) as [(Hi & Hj & _) | [_ Hr]];
      [| exact Hr].
    assert (Hin : In (j, i) (all_edges graphs))
      by (apply in_all_edges; eauto).
    destruct (num_vertices_above _ _ Hn j i Hin).
    apply getitem_ok_iff in Hi. apply getitem_ok_iff in Hj.
    rewrite Hlen in Hi, Hj. simpl in Hlow. lia.
Qed.

(** With every index at least [-n] there is at least one object and the
    objective raises nowhere on the score vectors of length [n]. *)
Lemma negative_indices_total (graphs : list graph) (h l : R) (n : Z) :
  num_vertices graphs = Ok n -> indices_at_least (- n) graphs ->
  0 <= h <= 1 ->
  (1 <= n)%Z /\ total_on (negative_log_likelihood graphs h l) (Z.to_nat n).
Proof.
  intros Hn Hlo Hh.
  assert (Hrange : forall j i, In (j, i) (all_edges graphs) ->
                               (- n <= i < n)%Z /\ (- n <= j < n)%Z).
  { intros j i Hin. destruct (num_vertices_above _ _ Hn j i Hin).
    apply in_all_edges in Hin. destruct Hin as (g & Hg & He).
    destruct (Hlo g (j, i) Hg He). simpl in *. lia. }
  assert (H1 : (1 <= n)%Z).
  { destruct (num_vertices_is_max _ _ Hn) as [(j & i & Hin & E) _].
    destruct (Hrange j i Hin). lia. }
  split; [exact H1 |].
  intros s Hs.
  assert (E : Z.of_nat (length s) = n) by (rewrite Hs; lia).
  destruct (py_sum_from_total (edge_term h s) (all_edges graphs) 0)
    as [L HL].
  - intros [j i] Hin. destruct (Hrange j i Hin) as [Hi Hj].
    destruct (edge_term_cases h s j i Hh) as [(_ & _ & Hok) | [Hbad _]];
      [exact Hok |].
    exfalso. destruct Hbad as [Hbad | Hbad]; apply Hbad;
      apply getitem_ok_iff; lia.
  - eexists. apply negative_log_likelihood_iff.
    exists L. split; [exact HL | reflexivity].
Qed.

(** A value of the objective means that every index of every edge could
    be read. *)
Lemma objective_ok_reads (graphs : list graph) (h l : R) (s : list R)
  (j i : Z) :
  is_ok (negative_log_likelihood graphs h l s) ->
  In (j, i) (all_edges graphs) ->
  is_ok (getitem s i) /\ is_ok (getitem s j).
Proof.
  intros [v Hv] Hin. apply negative_log_likelihood_iff in Hv.
  destruct Hv as (L & HL & _). unfold py_sum in HL.
  apply py_sum_from_iff in HL. destruct HL as (vs & HF & _).
  apply In_nth_error in Hin. destruct Hin as [k Hk].
  destruct (Forall2_nth_error_l _ _ _ HF k _ Hk) as (y & _ & Hy).
  unfold edge_term in Hy.
  destruct (getitem s i) as [si | e]; [| discriminate]. simpl in Hy.
  destruct (getitem s j) as [sj | e]; [| discriminate].
  split; eexists; reflexivity.
Qed.

(** With a preference accuracy in [[0, 1]], an edge one of whose indices
    cannot be read makes the objective raise [IndexError]. *)
Lemma objective_unreadable_index (graphs : list graph) (h l : R)
  (s : list R) (j i : Z) :
  0 <= h <= 1 ->
  In (j, i) (all_edges graphs) ->
  ~ is_ok (getitem s i) \/ ~ is_ok (getitem s j) ->
  negative_log_likelihood graphs h l s = Raise IndexError.
Proof.
  intros Hh Hin Hbad. unfold negative_log_likelihood, py_sum.
  rewrite (py_sum_from_raises _ IndexError); [reflexivity | |].
  - intros [j' i'] _. destruct (edge_term_cases h s j' i' Hh)
      as [(_ & _ & Hok) | [_ Hr]]; auto.
  - exists (j, i). split; [exact Hin |].
    destruct (edge_term_cases h s j i Hh) as [(Hi & Hj & _) | [_ Hr]];
      [| exact Hr].
    exfalso. destruct Hbad as [Hbad | Hbad]; now apply Hbad.
Qed.

Lemma minimize_first_up_returns : returns_on_total minimize_first_up.
Proof.
  intros f x0 H. destruct (H x0 eq_refl) as [v Hv].
  unfold minimize_first_up. rewrite Hv. simpl.
  eexists. split; [reflexivity |]. destruct x0; reflexivity.
Qed.

Lemma estimate_bt_scores_first_up (graphs : list graph) (std : bool)
  (h l : R) (n : Z) :
  num_vertices graphs = Ok n -> valid_corpus graphs -> 0 <= h <= 1 ->
  estimate_bt_scores minimize_first_up graphs std h l
  = Ok (let raw := map exp match repeat 1 (Z.to_nat n) with
                           | [] => []
                           | x :: rest => (x + 1) :: rest
                           end in
        if std then zscore raw else map Fin raw).
Proof.
  intros Hn Hv Hh. unfold estimate_bt_scores. rewrite Hn. simpl.
  unfold minimize_first_up, initial_guess.
  rewrite (negative_log_likelihood_spec graphs h l n _ Hn Hv Hh
             (repeat_length 1 (Z.to_nat n))).
  simpl. destruct std; reflexivity.
Qed.

Lemma map_Fin_injective (xs ys : list R) :
  map Fin xs = map Fin ys -> xs = ys.
Proof.
  revert ys. induction xs as [| x xs IH]; intros [| y ys] H;
    try discriminate; [reflexivity |].
  simpl in H. injection H as -> H. f_equal. now apply IH.
Qed.

Lemma exp_2_neq_exp_1 : exp (1 + 1) <> exp 1.
Proof. intros H. apply exp_inv in H. lra. Qed.

(** ** Corpora of opposite preferences *)

Lemma Rsum_le_pointwise {A : Type} (f g : A -> R) (xs : list A) :
  (forall x, In x xs -> f x <= g x) ->
  Rsum (map f xs) <= Rsum (map g xs).
Proof.
  unfold Rsum. induction xs as [| x xs IH]; intros H; simpl; [lra |].
  pose proof (H x (or_introl eq_refl)).
  assert (fold_right Rplus 0 (map f xs) <= fold_right Rplus 0 (map g xs))
    by (apply IH; intros y Hy; apply H; now right).
  lra.
Qed.

Lemma Rsum_opposite_pairs (f : edge -> R) (ps : list edge) :
  Rsum (map f (opposite_pairs ps))
  = Rsum (map (fun e => f e + f (swap_edge e)) ps).
Proof.
  unfold opposite_pairs, Rsum.
  induction ps as [| e ps IH]; simpl; [reflexivity |].
  rewrite IH. lra.
Qed.

Lemma spec_edge_term_pair_le (h : R) (s : list R) (e : edge) :
  0 <= h <= 1 ->
  spec_edge_term h s e + spec_edge_term h s (swap_edge e)
  <= spec_log10 (/ 2) + spec_log10 (/ 2).
Proof.
  intros Hh. destruct e as [j i]. unfold spec_edge_term, swap_edge.
  apply opposite_terms_le; [exact Hh | apply spec_bt_pos .. |].
  apply spec_bt_compl.
Qed.

Lemma spec_edge_term_equal_scores (h : R) (s : list R) (j i : Z) :
  score_at s i = score_at s j ->
  spec_edge_term h s (j, i) = spec_log10 (/ 2).
Proof.
  intros E. unfold spec_edge_term. rewrite E, spec_bt_same.
  f_equal. lra.
Qed.

Lemma score_at_ones (n : nat) (i : Z) :
  (0 <= i < Z.of_nat n)%Z -> score_at (repeat 1 n) i = 1.
Proof.
  intros H. unfold score_at. apply nth_repeat_lt. lia.
Qed.

Lemma spec_R_le_ones (s : list R) :
  spec_R s <= spec_R (repeat 1 (length s)).
Proof.
  unfold spec_R, Rsum. induction s as [| x s IH]; simpl; [lra |].
  pose proof (spec_reg_term_le x) as Hx. unfold s_vo in Hx. lra.
Qed.

Section OppositePairs.

Variables (graphs : list graph) (ps : list edge) (h l : R) (n : Z).
Hypothesis Hn : num_vertices graphs = Ok n.
Hypothesis Hv : valid_corpus graphs.
Hypothesis Hh : 0 <= h <= 1.
Hypothesis Hl : 0 <= l.
Hypothesis Hps : all_edges graphs = opposite_pairs ps.

Lemma opposite_pairs_L_le (s : list R) :
  spec_L h graphs s
  <= Rsum (map (fun _ => spec_log10 (/ 2) + spec_log10 (/ 2)) ps).
Proof.
  rewrite spec_L_all_edges, Hps, Rsum_opposite_pairs.
  apply Rsum_le_pointwise. intros e _. now apply spec_edge_term_pair_le.
Qed.

Lemma opposite_pairs_L_ones :
  spec_L h graphs (repeat 1 (Z.to_nat n))
  = Rsum (map (fun _ => spec_log10 (/ 2) + spec_log10 (/ 2)) ps).
Proof.
  rewrite spec_L_all_edges, Hps, Rsum_opposite_pairs.
  f_equal. apply map_ext_in. intros [j i] Hin.
  assert (Hin' : In (j, i) (all_edges graphs)).
  { rewrite Hps. unfold opposite_pairs. apply in_flat_map.
    exists (j, i). split; [exact Hin | now left]. }
  destruct (num_vertices_above _ _ Hn j i Hin').
  destruct (valid_corpus_edges _ Hv j i Hin').
  unfold swap_edge.
  rewrite !spec_edge_term_equal_scores;
    [reflexivity | rewrite !score_at_ones by lia; reflexivity ..].
Qed.

(** On a corpus of opposite preferences the initial guess minimizes the
    objective. *)
Lemma opposite_pairs_global_minimum :
  global_minimum (negative_log_likelihood graphs h l)
    (repeat 1 (Z.to_nat n)).
Proof.
  exists (spec_objective h l graphs (repeat 1 (Z.to_nat n))). split.
  - apply (negative_log_likelihood_spec _ _ _ n); try assumption.
    apply repeat_length.
  - intros x v Hx Hfx. rewrite repeat_length in Hx.
    rewrite (negative_log_likelihood_spec _ _ _ n x Hn Hv Hh Hx) in Hfx.
    injection Hfx as <-.
    unfold spec_objective. rewrite opposite_pairs_L_ones.
    pose proof (opposite_pairs_L_le x) as HL.
    pose proof (spec_R_le_ones x) as HR. rewrite Hx in HR.
    nra.
Qed.

(** Hence every optimizer within the contract returns the initial guess,
    and every object gets the score [e]. *)
Lemma opposite_pairs_scores (minimize : optimizer) (std : bool) :
  stays_at_minimum minimize ->
  estimate_bt_scores minimize graphs std h l
  = Ok (if std then zscore (repeat (exp 1) (Z.to_nat n))
        else map Fin (repeat (exp 1) (Z.to_nat n))).
Proof.
  intros Hm. unfold estimate_bt_scores. rewrite Hn. simpl.
  unfold initial_guess. rewrite Hm.
  - simpl. rewrite map_repeat. destruct std; reflexivity.
  - rewrite repeat_length. now apply negative_log_likelihood_total.
  - exact opposite_pairs_global_minimum.
Qed.

End OppositePairs.

(** ** An argsort that is not stable, on equal entries *)

Lemma insert_by_last {A : Type} (before : A -> A -> bool)
  (x : nat * A) (l : list (nat * A)) :
  (forall y, In y l -> before (snd x) (snd y) = false) ->
  insert_by before x l = l ++ [x].
Proof.
  induction l as [| y l IH]; intros H; simpl; [reflexivity |].
  rewrite (H y (or_introl eq_refl)). f_equal.
  apply IH. intros z Hz. apply H. now right.
Qed.

Lemma sort_by_reverses {A : Type} (before : A -> A -> bool)
  (l : list (nat * A)) :
  (forall x y, In x l -> In y l -> before (snd x) (snd y) = false) ->
  sort_by before l = rev l.
Proof.
  induction l as [| x l IH]; intros H; simpl; [reflexivity |].
  rewrite IH by (intros y z Hy Hz; apply H; now right).
  apply insert_by_last. intros y Hy. apply in_rev in Hy.
  apply H; [now left | now right].
Qed.

(** On an array of equal floats the argsort with ties reversed lists the
    indices from the last to the first. *)
Lemma argsort_ties_reversed_constant (c : R) (n : nat) :
  argsort_ties_reversed _ _ (repeat (Fin c) n) = rev (seq 0 n).
Proof.
  unfold argsort_ties_reversed. rewrite sort_by_reverses.
  - rewrite map_rev. f_equal. unfold enumerate.
    rewrite repeat_length. generalize 0%nat.
    induction n as [| n IH]; intros start; simpl; [reflexivity |].
    now rewrite IH.
  - intros [i x] [j y] Hx Hy. unfold enumerate in *.
    apply in_combine_r in Hx, Hy.
    apply repeat_spec in Hx, Hy. subst x y. simpl.
    apply negb_false_iff, Rleb_true. lra.
Qed.

Lemma zscore_repeat (c : R) (n : nat) :
  zscore (repeat c n) = repeat NaN n.
Proof.
  rewrite zscore_nan.
  - now rewrite map_repeat.
  - apply (std_constant c). intros x Hx. now apply repeat_spec in Hx.
Qed.

Lemma disagreement_corpus_valid : valid_corpus disagreement_corpus.
Proof.
  intros g e [<- | [<- | []]] [<- | []]; simpl; lia.
Qed.

Lemma disagreement_corpus_all_edges :
  all_edges disagreement_corpus = opposite_pairs [(1, 0)%Z].
Proof. reflexivity. Qed.

Lemma star_corpus_num_vertices : num_vertices star_corpus = Ok 18%Z.
Proof. reflexivity. Qed.

Lemma star_corpus_all_edges :
  all_edges star_corpus
  = opposite_pairs (map (fun k => (Z.of_nat k, 0%Z)) (seq 1 17)).
Proof. reflexivity. Qed.

Lemma star_corpus_valid : valid_corpus star_corpus.
Proof.
  intros g e [<- | []] He. unfold opposite_pairs in He.
  apply in_flat_map in He. destruct He as ([j i] & Hp & He).
  apply in_map_iff in Hp. destruct Hp as (k & Hk & _).
  injection Hk as <- <-.
  destruct He as [<- | [<- | []]]; simpl; lia.
Qed.

(** * The claims on the two public functions *)

(** ** The objective *)

(** C1: on a valid corpus with at least one edge (so that the number of
    objects [n] is defined), at every score vector [s] of length [n]:
    whatever the preference accuracy, a value that the objective handed
    to the minimizer returns is the value [-(L + lambda * R)] of the
    specification; and with a preference accuracy in [[0, 1]] the
    objective does return it. *)
Theorem objective_is_negative_regularized_log_likelihood
  (graphs : list graph) (h lambda : R) (n : Z) (s : list R) :
  num_vertices graphs = Ok n ->
  valid_corpus graphs ->
  length s = Z.to_nat n ->
  (forall v, negative_log_likelihood graphs h lambda s = Ok v ->
             v = spec_objective h lambda graphs s) /\
  (0 <= h <= 1 ->
   negative_log_likelihood graphs h lambda s
   = Ok (spec_objective h lambda graphs s)).
Proof.
  intros Hn Hv Hlen. split.
  - intros v. now apply (negative_log_likelihood_value graphs h lambda n).
  - intros Hh. now apply (negative_log_likelihood_spec graphs h lambda n).
Qed.

Lemma objective_is_negative_regularized_log_likelihood_witness :
  negative_log_likelihood [[(1, 0)%Z]] (9 / 10) (1 / 2) [1; 1]
  = Ok (spec_objective (9 / 10) (1 / 2) [[(1, 0)%Z]] [1; 1]).
Proof.
  apply (proj2 (objective_is_negative_regularized_log_likelihood
                  [[(1, 0)%Z]] (9 / 10) (1 / 2) 2 [1; 1] eq_refl
                  (single_edge_valid 1 0 ltac:(lia) ltac:(lia)) eq_refl)).
  lra.
Defined.

(** C10 (as the code has it): adding a self-loop [(i, i)] to an annotator
    graph shifts the objective by the constant [-log10(1/2)] at every
    score vector [s] that has an entry for [i], since the likelihood term
    of the self-loop is [log10(1/2)]; hence among the score vectors of one
    length that have an entry for [i] the minimizing ones are the same.
    At a score vector that has no entry for [i] the objective with the
    self-loop returns no value. *)
Theorem self_loop_shifts_objective_by_constant
  (before after : list graph) (g g' : graph) (i : Z) (h l : R) (s : list R) :
  Permutation g' ((i, i) :: g) ->
  (is_ok (getitem s i) ->
   edge_term h s (i, i) = Ok (spec_log10 (/ 2)) /\
   (forall v,
      negative_log_likelihood (before ++ g :: after) h l s = Ok v <->
      negative_log_likelihood (before ++ g' :: after) h l s
      = Ok (v + - spec_log10 (/ 2))) /\
   (global_minimum (negative_log_likelihood (before ++ g :: after) h l) s <->
    global_minimum (negative_log_likelihood (before ++ g' :: after) h l) s))
  /\
  (~ is_ok (getitem s i) ->
   ~ is_ok (negative_log_likelihood (before ++ g' :: after) h l s)).
Proof.
  intros Hadd. split.
  - intros Hi. split; [now apply edge_term_self_loop |]. split.
    + intros v.
      exact (self_loop_objective before after g g' i Hadd h l s v Hi).
    + exact (self_loop_minimum before after g g' i Hadd h l s Hi).
  - intros Hi Hok. apply Hi.
    apply (objective_ok_reads _ h l s i i Hok).
    apply (Permutation_in _
             (Permutation_sym (self_loop_all_edges before after g g' i Hadd))).
    now left.
Qed.

Lemma self_loop_shifts_objective_by_constant_witness :
  (edge_term (9 / 10) [1; 1] (0, 0)%Z = Ok (spec_log10 (/ 2)) /\
   (forall v,
      negative_log_likelihood ([] ++ [(1, 0)%Z] :: []) (9 / 10) (1 / 2) [1; 1]
      = Ok v <->
      negative_log_likelihood ([] ++ [(1, 0)%Z; (0, 0)%Z] :: [])
        (9 / 10) (1 / 2) [1; 1]
      = Ok (v + - spec_log10 (/ 2))) /\
   (global_minimum
      (negative_log_likelihood ([] ++ [(1, 0)%Z] :: []) (9 / 10) (1 / 2))
      [1; 1] <->
    global_minimum
      (negative_log_likelihood ([] ++ [(1, 0)%Z; (0, 0)%Z] :: [])
         (9 / 10) (1 / 2))
      [1; 1])) /\
  ~ is_ok (negative_log_likelihood ([] ++ [(1, 0)%Z; (5, 5)%Z] :: [])
             (9 / 10) (1 / 2) [1; 1]).
Proof.
  split.
  - apply (proj1 (self_loop_shifts_objective_by_constant [] [] [(1, 0)%Z]
                    [(1, 0)%Z; (0, 0)%Z] 0 (9 / 10) (1 / 2) [1; 1]
                    (perm_swap _ _ _))).
    exists 1. reflexivity.
  - apply (proj2 (self_loop_shifts_objective_by_constant [] [] [(1, 0)%Z]
                    [(1, 0)%Z; (5, 5)%Z] 5 (9 / 10) (1 / 2) [1; 1]
                    (perm_swap _ _ _))).
    intros [x Hx]. discriminate.
Defined.

(** C10 (as the specification has it) fails: [[1.0, 1.0]] is a score
    vector of the two objects of the corpus [[{(1, 0)}]], at which the
    objective returns a value; with the self-loop [(5, 5)] added there are
    six objects, and at that score vector the objective raises
    [IndexError] instead of returning the value shifted by a constant. *)
Lemma self_loop_beyond_the_objects_raises :
  num_vertices [[(1, 0)%Z]] = Ok 2%Z /\
  num_vertices [[(1, 0)%Z; (5, 5)%Z]] = Ok 6%Z /\
  is_ok (negative_log_likelihood [[(1, 0)%Z]] (9 / 10) (1 / 2) [1; 1]) /\
  negative_log_likelihood [[(1, 0)%Z; (5, 5)%Z]] (9 / 10) (1 / 2) [1; 1]
  = Raise IndexError.
Proof.
  assert (Hh : 0 <= 9 / 10 <= 1) by lra.
  split; [reflexivity |]. split; [reflexivity |]. split.
  - eexists.
    apply (negative_log_likelihood_spec [[(1, 0)%Z]] _ _ 2 [1; 1] eq_refl);
      [apply single_edge_valid; lia | exact Hh | reflexivity].
  - apply (objective_unreadable_index _ _ _ _ 5 5 Hh).
    + right. now left.
    + left. intros [x Hx]. discriminate.
Qed.

(** ** Negative indices *)

(** C5 (as the code has it): an edge with a negative object index is not
    rejected by any validation.  With [n] the number of objects, one plus
    the greatest index: if every index is at least [-n], a negative index
    [i] reads the entry that [n + i] reads, the objective raises nowhere on
    the score vectors of length [n], the optimizer is invoked, and [n]
    scores are returned; if some index is below [-n], the call fails with
    the [IndexError] that the objective raises when the optimizer
    evaluates it. *)
Theorem negative_indices_are_not_validated (minimize : optimizer)
  (graphs : list graph) (std : bool) (h l : R) (n : Z) :
  minimize_contract minimize ->
  num_vertices graphs = Ok n ->
  0 <= h <= 1 ->
  (indices_at_least (- n) graphs ->
   (forall s i, length s = Z.to_nat n -> (- n <= i < 0)%Z ->
                getitem s i = getitem s (n + i)) /\
   total_on (negative_log_likelihood graphs h l) (Z.to_nat n) /\
   exists x : list R,
     minimize (negative_log_likelihood graphs h l) (repeat 1 (Z.to_nat n))
     = Ok x /\
     length x = Z.to_nat n /\
     estimate_bt_scores minimize graphs std h l
     = Ok (if std then zscore (map exp x) else map Fin (map exp x))) /\
  (some_index_below (- n) graphs ->
   estimate_bt_scores minimize graphs std h l
   = Raise IndexError).
Proof.
  intros Hm Hn Hh. split.
  - intros Hlo.
    destruct (negative_indices_total graphs h l n Hn Hlo Hh) as [_ Htot].
    split; [intros s i; apply getitem_from_the_end |].
    split; [exact Htot |].
    destruct (minimize_returns _ Hm (negative_log_likelihood graphs h l)
                (repeat 1 (Z.to_nat n))) as (x & Hx & Hlen).
    + now rewrite repeat_length.
    + rewrite repeat_length in Hlen. exists x.
      split; [exact Hx |]. split; [exact Hlen |].
      unfold estimate_bt_scores. rewrite Hn. simpl.
      unfold initial_guess. rewrite Hx. simpl. destruct std; reflexivity.
  - intros Hlow. unfold estimate_bt_scores. rewrite Hn. simpl.
    rewrite (minimize_raises _ Hm _ _ IndexError);
      [reflexivity |].
    apply (objective_index_error graphs h l n); try assumption.
    apply initial_guess_length.
Qed.

Lemma last_index_corpus_at_least : indices_at_least (- 1) [[((- 1)%Z, 0%Z)]].
Proof.
  intros g e [<- | []] [<- | []]. simpl. lia.
Qed.

Lemma negative_indices_are_not_validated_witness :
  ((forall s i, length s = Z.to_nat 1 -> (- 1 <= i < 0)%Z ->
                getitem s i = getitem s (1 + i)) /\
   total_on (negative_log_likelihood [[((- 1)%Z, 0%Z)]] (9 / 10) (1 / 2))
     (Z.to_nat 1) /\
   exists x : list R,
     minimize_no_step
       (negative_log_likelihood [[((- 1)%Z, 0%Z)]] (9 / 10) (1 / 2))
       (repeat 1 (Z.to_nat 1))
     = Ok x /\
     length x = Z.to_nat 1 /\
     estimate_bt_scores minimize_no_step [[((- 1)%Z, 0%Z)]] false
       (9 / 10) (1 / 2)
     = Ok (map Fin (map exp x))) /\
  estimate_bt_scores minimize_no_step [[((- 3)%Z, 0%Z)]] false
    (9 / 10) (1 / 2)
  = Raise IndexError.
Proof.
  assert (Hh : 0 <= 9 / 10 <= 1) by lra.
  split.
  - apply (proj1 (negative_indices_are_not_validated minimize_no_step
                    [[((- 1)%Z, 0%Z)]] false (9 / 10) (1 / 2) 1
                    minimize_no_step_contract eq_refl Hh)).
    exact last_index_corpus_at_least.
  - apply (proj2 (negative_indices_are_not_validated minimize_no_step
                    [[((- 3)%Z, 0%Z)]] false (9 / 10) (1 / 2) 1
                    minimize_no_step_contract eq_refl Hh)).
    exists [((- 3)%Z, 0%Z)], ((- 3)%Z, 0%Z).
    split; [now left |]. split; [now left |]. left. simpl. lia.
Defined.

(** C5 (as the specification has it) fails: the corpus [[{(-1, 0)}]],
    whose edge has a negative index, is not rejected: the optimizer runs
    and a score is returned. *)
Lemma negative_index_is_accepted :
  minimize_contract minimize_no_step /\
  estimate_bt_scores minimize_no_step [[((- 1)%Z, 0%Z)]] false
    (9 / 10) (1 / 2)
  = Ok [Fin (exp 1)].
Proof.
  split; [exact minimize_no_step_contract |].
  assert (Hh : 0 <= 9 / 10 <= 1) by lra.
  destruct (negative_indices_total [[((- 1)%Z, 0%Z)]] (9 / 10) (1 / 2) 1
              eq_refl last_index_corpus_at_least Hh) as [_ Htot].
  destruct (Htot [1] eq_refl) as [v Hv].
  unfold estimate_bt_scores.
  change (num_vertices [[((- 1)%Z, 0%Z)]]) with (@Ok Z 1%Z).
  simpl. unfold minimize_no_step.
  change (initial_guess 1) with [1]. rewrite Hv. reflexivity.
Qed.

(** ** Scores *)

(** C8: on a valid corpus with at least one edge (and a preference
    accuracy in [[0, 1]]), [estimate_bt_scores] with [standardize] off
    returns strictly positive reals, as many as the number of objects [n],
    which is one plus the greatest index that occurs in an edge. *)
Theorem scores_are_positive_and_one_per_object (minimize : optimizer)
  (graphs : list graph) (h l : R) (n : Z) :
  returns_on_total minimize ->
  num_vertices graphs = Ok n ->
  valid_corpus graphs ->
  0 <= h <= 1 ->
  (exists j i, In (j, i) (all_edges graphs) /\ n = (1 + Z.max i j)%Z) /\
  (forall j i, In (j, i) (all_edges graphs) -> (1 + Z.max i j <= n)%Z) /\
  exists scores : list R,
    estimate_bt_scores minimize graphs false h l = Ok (map Fin scores) /\
    length scores = Z.to_nat n /\
    Forall (fun x => 0 < x) scores.
Proof.
  intros Hm Hn Hv Hh.
  destruct (num_vertices_is_max _ _ Hn) as [Hmax Hub].
  split; [exact Hmax |]. split; [exact Hub |].
  destruct (estimate_bt_scores_shape minimize Hm graphs h l n Hn Hv Hh)
    as (x & _ & Hlen & Hs).
  exists (map exp x). split; [apply (Hs false) |]. split.
  - now rewrite length_map.
  - apply Forall_forall. intros y Hy. apply in_map_iff in Hy.
    destruct Hy as (z & <- & _). apply exp_pos.
Qed.

Lemma scores_are_positive_and_one_per_object_witness :
  (exists j i, In (j, i) (all_edges [[(1, 0)%Z]]) /\ 2%Z = (1 + Z.max i j)%Z) /\
  (forall j i, In (j, i) (all_edges [[(1, 0)%Z]]) -> (1 + Z.max i j <= 2)%Z) /\
  exists scores : list R,
    estimate_bt_scores minimize_no_step [[(1, 0)%Z]] false (9 / 10) (1 / 2)
    = Ok (map Fin scores) /\
    length scores = Z.to_nat 2 /\
    Forall (fun x => 0 < x) scores.
Proof.
  assert (Hh : 0 <= 9 / 10 <= 1) by lra.
  assert (Hv : valid_corpus [[(1, 0)%Z]]) by (apply single_edge_valid; lia).
  exact (scores_are_positive_and_one_per_object minimize_no_step
           [[(1, 0)%Z]] (9 / 10) (1 / 2) 2
           (minimize_returns _ minimize_no_step_contract) eq_refl Hv Hh).
Defined.

(** C9 (as the code has it): on a valid corpus, [estimate_bt_scores] with
    [standardize] off returns the exponentials of the optimizer's vector
    unchanged, and with [standardize] on it returns their z-scores.  When
    the raw scores are not all equal, these are each score minus the mean,
    divided by the population standard deviation, and they have mean 0 and
    standard deviation 1.  When the raw scores are all equal, the standard
    deviation is zero and every z-score is NaN. *)
Theorem standardized_scores_are_z_scores (minimize : optimizer)
  (graphs : list graph) (h l : R) (n : Z) :
  returns_on_total minimize ->
  num_vertices graphs = Ok n ->
  valid_corpus graphs ->
  0 <= h <= 1 ->
  exists x raw : list R,
    minimize (negative_log_likelihood graphs h l) (repeat 1 (Z.to_nat n))
    = Ok x /\
    raw = map exp x /\
    length raw = Z.to_nat n /\
    estimate_bt_scores minimize graphs false h l = Ok (map Fin raw) /\
    estimate_bt_scores minimize graphs true h l = Ok (zscore raw) /\
    (std raw = 0 <-> forall a b, In a raw -> In b raw -> a = b) /\
    (std raw <> 0 ->
     exists z : list R,
       zscore raw = map Fin z /\
       z = map (fun a => (a - mean raw) / std raw) raw /\
       mean z = 0 /\ std z = 1) /\
    (std raw = 0 -> zscore raw = map (fun _ => NaN) raw).
Proof.
  intros Hm Hn Hv Hh.
  destruct (estimate_bt_scores_shape minimize Hm graphs h l n Hn Hv Hh)
    as (x & Hx & Hlen & Hs).
  exists x, (map exp x).
  split; [exact Hx |]. split; [reflexivity |].
  split; [now rewrite length_map |].
  split; [apply (Hs false) |]. split; [apply (Hs true) |].
  split; [apply std_zero_iff |]. split.
  - intros Hstd. eexists. split; [now apply zscore_finite |].
    split; [reflexivity |].
    split; [now apply standardized_mean | now apply standardized_std].
  - apply zscore_nan.
Qed.

Lemma standardized_scores_are_z_scores_witness :
  exists x raw : list R,
    minimize_no_step (negative_log_likelihood [[(1, 0)%Z]] (9 / 10) (1 / 2))
      (repeat 1 (Z.to_nat 2))
    = Ok x /\
    raw = map exp x /\
    length raw = Z.to_nat 2 /\
    estimate_bt_scores minimize_no_step [[(1, 0)%Z]] false (9 / 10) (1 / 2)
    = Ok (map Fin raw) /\
    estimate_bt_scores minimize_no_step [[(1, 0)%Z]] true (9 / 10) (1 / 2)
    = Ok (zscore raw) /\
    (std raw = 0 <-> forall a b, In a raw -> In b raw -> a = b) /\
    (std raw <> 0 ->
     exists z : list R,
       zscore raw = map Fin z /\
       z = map (fun a => (a - mean raw) / std raw) raw /\
       mean z = 0 /\ std z = 1) /\
    (std raw = 0 -> zscore raw = map (fun _ => NaN) raw).
Proof.
  assert (Hh : 0 <= 9 / 10 <= 1) by lra.
  assert (Hv : valid_corpus [[(1, 0)%Z]]) by (apply single_edge_valid; lia).
  exact (standardized_scores_are_z_scores minimize_no_step
           [[(1, 0)%Z]] (9 / 10) (1 / 2) 2
           (minimize_returns _ minimize_no_step_contract) eq_refl Hv Hh).
Defined.

(** C9 (as the specification has it) fails: on the valid corpus
    [[{(1, 0)}, {(0, 1)}]] of two objects the raw scores are equal, and
    the standardized scores are NaN, not numbers of mean 0 and standard
    deviation 1. *)
Lemma standardized_scores_of_equal_scores_are_nan :
  minimize_contract minimize_no_step /\
  valid_corpus disagreement_corpus /\
  num_vertices disagreement_corpus = Ok 2%Z /\
  estimate_bt_scores minimize_no_step disagreement_corpus true (9 / 10) (1 / 2)
  = Ok [NaN; NaN] /\
  ~ exists z : list R,
      estimate_bt_scores minimize_no_step disagreement_corpus true
        (9 / 10) (1 / 2)
      = Ok (map Fin z) /\ mean z = 0 /\ std z = 1.
Proof.
  assert (E : estimate_bt_scores minimize_no_step disagreement_corpus true
                (9 / 10) (1 / 2) = Ok [NaN; NaN]).
  { assert (Hh : 0 <= 9 / 10 <= 1) by lra.
    assert (Hl : 0 <= 1 / 2) by lra.
    rewrite (opposite_pairs_scores disagreement_corpus _ (9 / 10) (1 / 2) 2
               eq_refl disagreement_corpus_valid Hh Hl
               disagreement_corpus_all_edges minimize_no_step true
               (minimize_stays _ minimize_no_step_contract)).
    now rewrite zscore_repeat. }
  split; [exact minimize_no_step_contract |].
  split; [exact disagreement_corpus_valid |].
  split; [reflexivity |]. split; [exact E |].
  intros (z & Hz & _). rewrite E in Hz.
  destruct z as [| z0 z]; discriminate.
Qed.

(** ** Ranks *)

(** C7: on a valid corpus with at least one edge, [estimate_bt_ranks]
    returns [n] ranks that are a permutation of [1..n]; they are computed
    from the scores that [estimate_bt_scores] returns with [standardize]
    off, some object has rank 1, and the object of rank 1 has a greatest
    score. *)
Theorem ranks_are_a_permutation (minimize : optimizer) (argsort : argsort_t)
  (graphs : list graph) (h l : R) (n : Z) :
  returns_on_total minimize ->
  argsort_contract argsort ->
  num_vertices graphs = Ok n ->
  valid_corpus graphs ->
  0 <= h <= 1 ->
  exists (scores : list R) (ranks : list nat),
    estimate_bt_scores minimize graphs false h l = Ok (map Fin scores) /\
    estimate_bt_ranks minimize argsort graphs h l = Ok ranks /\
    ranks = map (fun k => (k + 1)%nat)
              (argsort _ _ (argsort _ _ (map np_neg (map Fin scores)))) /\
    length ranks = Z.to_nat n /\
    Permutation ranks (seq 1 (Z.to_nat n)) /\
    (exists i, nth_error ranks i = Some 1%nat) /\
    forall i si, nth_error ranks i = Some 1%nat ->
                 nth_error scores i = Some si ->
                 forall j sj, nth_error scores j = Some sj -> sj <= si.
Proof.
  intros Hm Hsort Hn Hv Hh.
  destruct (estimate_bt_scores_shape minimize Hm graphs h l n Hn Hv Hh)
    as (x & _ & Hlen & Hs).
  specialize (Hs false). cbv iota in Hs.
  assert (Hlen' : length (map exp x) = Z.to_nat n) by now rewrite length_map.
  destruct (ranks_order argsort (map exp x) Hsort) as [Hperm Hord].
  rewrite Hlen' in Hperm.
  eexists. eexists.
  split; [exact Hs |].
  split; [apply (estimate_bt_ranks_shape minimize argsort graphs h l _ Hs) |].
  split; [reflexivity |].
  split; [rewrite (Permutation_length Hperm); apply length_seq |].
  split; [exact Hperm |].
  split.
  { apply In_nth_error. apply (Permutation_in _ (Permutation_sym Hperm)).
    apply in_seq. pose proof (num_vertices_positive _ _ Hn Hv). lia. }
  intros i si Hri Hsi j sj Hsj.
  destruct (nth_error
              (map (fun k => (k + 1)%nat)
                 (argsort _ _ (argsort _ _ (map np_neg (map Fin (map exp x))))))
              j) as [rj |] eqn:Hrj.
  - destruct (Hord i j si sj 1%nat rj Hsi Hsj Hri Hrj) as (_ & Hweak & Hinj).
    destruct (Nat.eq_dec rj 1) as [-> | Hne].
    + assert (i = j) by now apply Hinj. subst j.
      assert (si = sj) by congruence. lra.
    + apply Hweak.
      assert (In rj (seq 1 (Z.to_nat n))).
      { apply (Permutation_in _ Hperm). eapply nth_error_In. exact Hrj. }
      apply in_seq in H. lia.
  - apply nth_error_None in Hrj.
    rewrite (Permutation_length Hperm), length_seq, <- Hlen' in Hrj.
    assert (j < length (map exp x))%nat
      by (apply nth_error_Some; congruence).
    lia.
Qed.

Lemma ranks_are_a_permutation_witness :
  exists (scores : list R) (ranks : list nat),
    estimate_bt_scores minimize_no_step [[(1, 0)%Z]] false (9 / 10) (1 / 2)
    = Ok (map Fin scores) /\
    estimate_bt_ranks minimize_no_step argsort_stable [[(1, 0)%Z]]
      (9 / 10) (1 / 2) = Ok ranks /\
    ranks = map (fun k => (k + 1)%nat)
              (argsort_stable _ _
                 (argsort_stable _ _ (map np_neg (map Fin scores)))) /\
    length ranks = Z.to_nat 2 /\
    Permutation ranks (seq 1 (Z.to_nat 2)) /\
    (exists i, nth_error ranks i = Some 1%nat) /\
    forall i si, nth_error ranks i = Some 1%nat ->
                 nth_error scores i = Some si ->
                 forall j sj, nth_error scores j = Some sj -> sj <= si.
Proof.
  assert (Hh : 0 <= 9 / 10 <= 1) by lra.
  assert (Hv : valid_corpus [[(1, 0)%Z]]) by (apply single_edge_valid; lia).
  exact (ranks_are_a_permutation minimize_no_step argsort_stable
           [[(1, 0)%Z]] (9 / 10) (1 / 2) 2
           (minimize_returns _ minimize_no_step_contract)
           argsort_stable_contract eq_refl Hv Hh).
Defined.

(** C6 (as the code has it): the ranks and the scores of one corpus agree
    on every two objects of different score: the rank of [i] is below the
    rank of [j] if and only if the score of [i] is above the score of [j].
    Two objects of exactly the same score get different ranks, in the
    order in which the sort leaves them. *)
Theorem ranks_follow_scores (minimize : optimizer) (argsort : argsort_t)
  (graphs : list graph) (h l : R) (n : Z) :
  returns_on_total minimize ->
  argsort_contract argsort ->
  num_vertices graphs = Ok n ->
  valid_corpus graphs ->
  0 <= h <= 1 ->
  exists (scores : list R) (ranks : list nat),
    estimate_bt_scores minimize graphs false h l = Ok (map Fin scores) /\
    estimate_bt_ranks minimize argsort graphs h l = Ok ranks /\
    length scores = Z.to_nat n /\
    length ranks = Z.to_nat n /\
    forall i j si sj ri rj,
      nth_error scores i = Some si -> nth_error scores j = Some sj ->
      nth_error ranks i = Some ri -> nth_error ranks j = Some rj ->
      (si <> sj -> ((ri < rj)%nat <-> sj < si)) /\
      (si = sj -> i <> j -> ri <> rj).
Proof.
  intros Hm Hsort Hn Hv Hh.
  destruct (estimate_bt_scores_shape minimize Hm graphs h l n Hn Hv Hh)
    as (x & _ & Hlen & Hs).
  specialize (Hs false). cbv iota in Hs.
  assert (Hlen' : length (map exp x) = Z.to_nat n) by now rewrite length_map.
  destruct (ranks_order argsort (map exp x) Hsort) as [Hperm Hord].
  rewrite Hlen' in Hperm.
  eexists. eexists.
  split; [exact Hs |].
  split; [apply (estimate_bt_ranks_shape minimize argsort graphs h l _ Hs) |].
  split; [exact Hlen' |].
  split; [rewrite (Permutation_length Hperm); apply length_seq |].
  intros i j si sj ri rj Hsi Hsj Hri Hrj.
  destruct (Hord i j si sj ri rj Hsi Hsj Hri Hrj) as (Hstrict & Hweak & Hinj).
  split.
  - intros Hne. split; [| exact Hstrict].
    intros Hlt. specialize (Hweak Hlt). lra.
  - intros _ Hij E. apply Hij. now apply Hinj.
Qed.

Lemma ranks_follow_scores_witness :
  exists (scores : list R) (ranks : list nat),
    estimate_bt_scores minimize_no_step [[(1, 0)%Z]] false (9 / 10) (1 / 2)
    = Ok (map Fin scores) /\
    estimate_bt_ranks minimize_no_step argsort_stable [[(1, 0)%Z]]
      (9 / 10) (1 / 2) = Ok ranks /\
    length scores = Z.to_nat 2 /\
    length ranks = Z.to_nat 2 /\
    forall i j si sj ri rj,
      nth_error scores i = Some si -> nth_error scores j = Some sj ->
      nth_error ranks i = Some ri -> nth_error ranks j = Some rj ->
      (si <> sj -> ((ri < rj)%nat <-> sj < si)) /\
      (si = sj -> i <> j -> ri <> rj).
Proof.
  assert (Hh : 0 <= 9 / 10 <= 1) by lra.
  assert (Hv : valid_corpus [[(1, 0)%Z]]) by (apply single_edge_valid; lia).
  exact (ranks_follow_scores minimize_no_step argsort_stable
           [[(1, 0)%Z]] (9 / 10) (1 / 2) 2
           (minimize_returns _ minimize_no_step_contract)
           argsort_stable_contract eq_refl Hv Hh).
Defined.

(** C6 (as the specification has it) fails: in a corpus of 18 objects
    whose scores are all equal, a sort that meets the contract of
    [argsort] without being stable gives rank 18 to object 0 and rank 1 to
    object 17, so that the lower index does not get the lower rank. *)
Lemma equal_scores_need_not_rank_by_index :
  minimize_contract minimize_no_step /\
  argsort_contract argsort_ties_reversed /\
  valid_corpus star_corpus /\
  estimate_bt_scores minimize_no_step star_corpus false (9 / 10) (1 / 2)
  = Ok (map Fin (repeat (exp 1) 18)) /\
  estimate_bt_ranks minimize_no_step argsort_ties_reversed star_corpus
    (9 / 10) (1 / 2)
  = Ok (rev (seq 1 18)).
Proof.
  assert (Hh : 0 <= 9 / 10 <= 1) by lra.
  assert (Hl : 0 <= 1 / 2) by lra.
  pose proof (opposite_pairs_scores star_corpus _ (9 / 10) (1 / 2) 18
                star_corpus_num_vertices star_corpus_valid Hh Hl
                star_corpus_all_edges minimize_no_step false
                (minimize_stays _ minimize_no_step_contract)) as Hs.
  cbv iota in Hs.
  split; [exact minimize_no_step_contract |].
  split; [exact argsort_ties_reversed_contract |].
  split; [exact star_corpus_valid |].
  split; [exact Hs |].
  rewrite (estimate_bt_ranks_shape minimize_no_step argsort_ties_reversed
             star_corpus (9 / 10) (1 / 2) _ Hs).
  rewrite !map_repeat. cbn [np_neg].
  rewrite argsort_ties_reversed_constant.
  reflexivity.
Qed.

(** ** Further properties *)

(** With a stable sort the ranks are the ones of the specification: the
    rank of [i] is below the rank of [j] exactly when the score of [i] is
    greater, or the scores are equal and [i] is the lower index. *)
Theorem stable_sort_breaks_ties_by_index (minimize : optimizer)
  (argsort : argsort_t) (graphs : list graph) (h l : R) (n : Z) :
  returns_on_total minimize ->
  argsort_contract argsort ->
  (forall a : list npfloat, is_stable a (argsort _ _ a)) ->
  num_vertices graphs = Ok n ->
  valid_corpus graphs ->
  0 <= h <= 1 ->
  exists (scores : list R) (ranks : list nat),
    estimate_bt_scores minimize graphs false h l = Ok (map Fin scores) /\
    estimate_bt_ranks minimize argsort graphs h l = Ok ranks /\
    forall i j si sj ri rj,
      nth_error scores i = Some si -> nth_error scores j = Some sj ->
      nth_error ranks i = Some ri -> nth_error ranks j = Some rj ->
      ((ri < rj)%nat <-> sj < si \/ (si = sj /\ (i < j)%nat)).
Proof.
  intros Hm Hsort Hstable Hn Hv Hh.
  destruct (estimate_bt_scores_shape minimize Hm graphs h l n Hn Hv Hh)
    as (x & _ & Hlen & Hs).
  specialize (Hs false). cbv iota in Hs.
  exists (map exp x). eexists.
  split; [exact Hs |].
  split; [apply (estimate_bt_ranks_shape minimize argsort graphs h l _ Hs) |].
  set (scores := map exp x).
  set (a := map np_neg (map Fin scores)).
  set (p := argsort _ _ a). set (q := argsort _ _ p).
  assert (Hp : is_argsort a p) by (apply Hsort, lawful_npfloat).
  assert (Hq : is_argsort p q) by (apply Hsort, lawful_nat).
  assert (Htie : forall i j s ki kj,
             nth_error scores i = Some s -> nth_error scores j = Some s ->
             nth_error q i = Some ki -> nth_error q j = Some kj ->
             (i < j)%nat -> (ki < kj)%nat).
  { intros i j s ki kj Hi Hj Hki Hkj Hij.
    apply (rank_tie a p q Hp Hq i j ki kj (Fin (- s)) (Fin (- s)));
      try assumption.
    - apply Hstable.
    - now apply nth_error_negated.
    - now apply nth_error_negated.
    - simpl. apply Rleb_true. lra. }
  destruct (ranks_order argsort scores Hsort) as [_ Hord].
  intros i j si sj ri rj Hsi Hsj Hri Hrj.
  destruct (Hord i j si sj ri rj Hsi Hsj Hri Hrj) as (Hstrict & Hweak & Hinj).
  fold a p q in Hri, Hrj. rewrite nth_error_map in Hri, Hrj.
  destruct (nth_error q i) as [ki |] eqn:Hki; [| discriminate].
  destruct (nth_error q j) as [kj |] eqn:Hkj; [| discriminate].
  simpl in Hri, Hrj. injection Hri as <-. injection Hrj as <-.
  split.
  - intros Hlt. specialize (Hweak Hlt).
    destruct Hweak as [Hw | Hw]; [now left |]. right. subst sj.
    split; [reflexivity |].
    destruct (Nat.lt_total i j) as [H | [H | H]]; [exact H | |].
    + subst j. assert (ki = kj) by congruence. lia.
    + pose proof (Htie j i si kj ki Hsj Hsi Hkj Hki H). lia.
  - intros [Hlt | [-> Hij]]; [now apply Hstrict |].
    pose proof (Htie i j sj ki kj Hsi Hsj Hki Hkj Hij). lia.
Qed.

Lemma stable_sort_breaks_ties_by_index_witness :
  exists (scores : list R) (ranks : list nat),
    estimate_bt_scores minimize_no_step disagreement_corpus false
      (9 / 10) (1 / 2) = Ok (map Fin scores) /\
    estimate_bt_ranks minimize_no_step argsort_stable disagreement_corpus
      (9 / 10) (1 / 2) = Ok ranks /\
    forall i j si sj ri rj,
      nth_error scores i = Some si -> nth_error scores j = Some sj ->
      nth_error ranks i = Some ri -> nth_error ranks j = Some rj ->
      ((ri < rj)%nat <-> sj < si \/ (si = sj /\ (i < j)%nat)).
Proof.
  assert (Hh : 0 <= 9 / 10 <= 1) by lra.
  exact (stable_sort_breaks_ties_by_index minimize_no_step argsort_stable
           disagreement_corpus (9 / 10) (1 / 2) 2
           (minimize_returns _ minimize_no_step_contract)
           argsort_stable_contract
           (argsort_stable_is_stable lawful_npfloat)
           eq_refl disagreement_corpus_valid Hh).
Defined.

(** On a valid corpus with at least one edge there is at least one
    object, every edge index is an object, and the score vector that the
    optimizer starts from has one entry per object. *)
Theorem object_indices_are_in_range (graphs : list graph) (n : Z) :
  num_vertices graphs = Ok n ->
  valid_corpus graphs ->
  (1 <= n)%Z /\
  length (initial_guess n) = Z.to_nat n /\
  forall j i, In (j, i) (all_edges graphs) ->
              (0 <= i < n)%Z /\ (0 <= j < n)%Z.
Proof.
  intros Hn Hv. split; [now apply (num_vertices_positive graphs) |].
  split; [apply initial_guess_length |].
  intros j i Hin.
  destruct (num_vertices_above _ _ Hn j i Hin).
  destruct (valid_corpus_edges _ Hv j i Hin). lia.
Qed.

Lemma object_indices_are_in_range_witness :
  (1 <= 4)%Z /\
  length (initial_guess 4) = Z.to_nat 4 /\
  forall j i, In (j, i) (all_edges [[(1, 0)%Z; (2, 1)%Z]; [(3, 2)%Z]]) ->
              (0 <= i < 4)%Z /\ (0 <= j < 4)%Z.
Proof.
  apply (object_indices_are_in_range [[(1, 0)%Z; (2, 1)%Z]; [(3, 2)%Z]] 4).
  - reflexivity.
  - intros g e [<- | [<- | []]] He; simpl in He;
      repeat (destruct He as [<- | He]; [simpl; lia |]); destruct He.
Defined.

(** ** The Bradley-Terry probability, again *)

Lemma spec_bt_lt_1 (a b : R) : spec_bt a b < 1.
Proof.
  pose proof (spec_bt_pos b a). pose proof (spec_bt_compl a b). lra.
Qed.

Lemma spec_bt_shift (a b c : R) : spec_bt (a + c) (b + c) = spec_bt a b.
Proof.
  unfold spec_bt. rewrite !exp_plus.
  pose proof (exp_pos a). pose proof (exp_pos b). pose proof (exp_pos c).
  field. split; nra.
Qed.

Lemma spec_bt_half_iff (a b : R) : spec_bt a b <= / 2 <-> a <= b.
Proof.
  unfold spec_bt. pose proof (exp_pos a). pose proof (exp_pos b).
  assert (E : exp a / (exp a + exp b) <= / 2 <-> exp a <= exp b).
  { split; intros Hle.
    - apply (Rmult_le_compat_r (exp a + exp b)) in Hle; [| lra].
      unfold Rdiv in Hle. rewrite Rmult_assoc, Rinv_l in Hle by lra. lra.
    - apply (Rmult_le_reg_r (exp a + exp b)); [lra |].
      unfold Rdiv. rewrite Rmult_assoc, Rinv_l by lra. lra. }
  rewrite E. split; intros Hle.
  - destruct (Rle_lt_dec a b) as [Hab | Hab]; [exact Hab |].
    apply exp_increasing in Hab. lra.
  - destruct Hle as [Hlt | ->]; [left; now apply exp_increasing | lra].
Qed.

(** [bt] never raises and returns a probability: a number strictly
    between 0 and 1, which with the probability of the opposite outcome
    sums to 1, which depends only on the difference of the two scores, and
    which is at most 1/2 exactly when the first score is not the greater
    one. *)
Theorem bt_is_a_probability (a b c : R) :
  exists p q : R,
    bt a b = Ok p /\ bt b a = Ok q /\
    0 < p < 1 /\ p + q = 1 /\
    bt (a + c) (b + c) = Ok p /\
    (p <= / 2 <-> a <= b).
Proof.
  exists (spec_bt a b), (spec_bt b a).
  rewrite !bt_ok, spec_bt_shift.
  split; [reflexivity |]. split; [reflexivity |].
  split; [split; [apply spec_bt_pos | apply spec_bt_lt_1] |].
  split; [apply spec_bt_compl |].
  split; [reflexivity | apply spec_bt_half_iff].
Qed.

(** ** The objective and the length of the score vector *)

(** The objective returns on every score vector that has an entry for
    each object (longer vectors are accepted), and raises [IndexError] on
    every shorter one. *)
Theorem objective_needs_an_entry_per_object (graphs : list graph) (h l : R)
  (n : Z) (s : list R) :
  num_vertices graphs = Ok n ->
  valid_corpus graphs ->
  0 <= h <= 1 ->
  ((Z.to_nat n <= length s)%nat ->
   is_ok (negative_log_likelihood graphs h l s)) /\
  ((length s < Z.to_nat n)%nat ->
   negative_log_likelihood graphs h l s = Raise IndexError).
Proof.
  intros Hn Hv Hh. split; intros Hlen.
  - unfold negative_log_likelihood.
    rewrite (py_sum_ok _ (spec_edge_term h s)).
    + simpl. rewrite reg_sum_ok. simpl. eexists. reflexivity.
    + intros [j i] Hin.
      destruct (num_vertices_above _ _ Hn j i Hin).
      destruct (valid_corpus_edges _ Hv j i Hin).
      apply edge_term_ok; [exact Hh | lia | lia].
  - unfold negative_log_likelihood, py_sum.
    rewrite (py_sum_from_raises _ IndexError); [reflexivity | |].
    + intros [j i] _. destruct (edge_term_cases h s j i Hh)
        as [(_ & _ & Hok) | [_ Hr]]; auto.
    + destruct (num_vertices_is_max _ _ Hn) as [(j & i & Hin & E) _].
      exists (j, i). split; [exact Hin |].
      destruct (edge_term_cases h s j i Hh) as [(Hi & Hj & _) | [_ Hr]];
        [| exact Hr].
      apply getitem_ok_iff in Hi. apply getitem_ok_iff in Hj. lia.
Qed.

Lemma objective_needs_an_entry_per_object_witness :
  is_ok (negative_log_likelihood [[(1, 0)%Z]] (9 / 10) (1 / 2) [1; 1; 1]) /\
  negative_log_likelihood [[(1, 0)%Z]] (9 / 10) (1 / 2) [1] = Raise IndexError.
Proof.
  assert (Hh : 0 <= 9 / 10 <= 1) by lra.
  assert (Hv : valid_corpus [[(1, 0)%Z]]) by (apply single_edge_valid; lia).
  split.
  - apply (proj1 (objective_needs_an_entry_per_object [[(1, 0)%Z]] (9 / 10)
                    (1 / 2) 2 [1; 1; 1] eq_refl Hv Hh)).
    simpl. lia.
  - apply (proj2 (objective_needs_an_entry_per_object [[(1, 0)%Z]] (9 / 10)
                    (1 / 2) 2 [1] eq_refl Hv Hh)).
    simpl. lia.
Defined.

(** ** The preference accuracy must be a probability *)

Lemma nth_map_seq {A : Type} (f : nat -> A) (n k : nat) (d : A) :
  (k < n)%nat -> nth k (map f (seq 0 n)) d = f k.
Proof.
  intros Hk. rewrite (nth_indep _ d (f 0%nat))
    by (now rewrite length_map, length_seq).
  rewrite map_nth, seq_nth by exact Hk. reflexivity.
Qed.

Lemma two_scores_length (n a b : nat) (x y : R) :
  length (two_scores n a b x y) = n.
Proof. unfold two_scores. now rewrite length_map, length_seq. Qed.

Lemma two_scores_first (n a b : nat) (x y : R) :
  (a < n)%nat -> nth a (two_scores n a b x y) 0 = x.
Proof.
  intros Ha. unfold two_scores. rewrite nth_map_seq by exact Ha.
  now rewrite Nat.eqb_refl.
Qed.

Lemma two_scores_second (n a b : nat) (x y : R) :
  (b < n)%nat -> a <> b -> nth b (two_scores n a b x y) 0 = y.
Proof.
  intros Hb Hab. unfold two_scores. rewrite nth_map_seq by exact Hb.
  destruct (Nat.eqb_spec b a); [congruence |]. now rewrite Nat.eqb_refl.
Qed.

(** Outside [[0, 1]] some pair of scores makes the argument of the
    logarithm vanish. *)
Lemma accuracy_out_of_range (h : R) :
  ~ 0 <= h <= 1 ->
  exists x y : R, h * spec_bt x y + (1 - h) * spec_bt y x = 0.
Proof.
  intros Hh. destruct (Rlt_le_dec h 0) as [Hneg | Hpos].
  - assert (HT : 0 < (h - 1) / h).
    { replace ((h - 1) / h) with ((1 - h) / (- h)) by (field; lra).
      apply Rdiv_lt_0_compat; lra. }
    exists (ln ((h - 1) / h)), 0. unfold spec_bt.
    rewrite exp_ln by exact HT. rewrite exp_0. field. split; lra.
  - assert (H1 : 1 < h) by (destruct (Rle_lt_dec h 1); [exfalso | ]; lra).
    assert (HT : 0 < h / (h - 1)) by (apply Rdiv_lt_0_compat; lra).
    exists 0, (ln (h / (h - 1))). unfold spec_bt.
    rewrite exp_ln by exact HT. rewrite exp_0. field. split; lra.
Qed.

Lemma edge_term_in_range_cases (h : R) (s : list R) (j i : Z) :
  (0 <= i < Z.of_nat (length s))%Z -> (0 <= j < Z.of_nat (length s))%Z ->
  (0 < h * spec_bt (score_at s i) (score_at s j)
       + (1 - h) * spec_bt (score_at s j) (score_at s i) /\
   is_ok (edge_term h s (j, i))) \/
  (~ 0 < h * spec_bt (score_at s i) (score_at s j)
         + (1 - h) * spec_bt (score_at s j) (score_at s i) /\
   edge_term h s (j, i) = Raise ValueError_math_domain).
Proof.
  intros Hi Hj. unfold edge_term.
  rewrite (getitem_nonneg s i Hi). simpl.
  rewrite (getitem_nonneg s j Hj). simpl.
  rewrite !bt_ok. simpl. unfold log10.
  destruct (Rlt_dec 0 _) as [Hpos | Hneg].
  - left. split; [exact Hpos | eexists; reflexivity].
  - right. split; [exact Hneg | reflexivity].
Qed.

(** The preference accuracy has to lie in [[0, 1]]: then the objective
    returns on every score vector of length [n]; otherwise, on a valid
    corpus with an edge between two different objects, there is a score
    vector of length [n] on which it raises the [ValueError] of
    [math.log10]. *)
Theorem preference_accuracy_must_be_a_probability (graphs : list graph)
  (h l : R) (n j i : Z) :
  num_vertices graphs = Ok n ->
  valid_corpus graphs ->
  In (j, i) (all_edges graphs) ->
  i <> j ->
  (0 <= h <= 1 ->
   total_on (negative_log_likelihood graphs h l) (Z.to_nat n)) /\
  (~ 0 <= h <= 1 ->
   exists s : list R,
     length s = Z.to_nat n /\
     negative_log_likelihood graphs h l s = Raise ValueError_math_domain).
Proof.
  intros Hn Hv Hin Hij. split.
  - intros Hh. now apply negative_log_likelihood_total.
  - intros Hh. destruct (accuracy_out_of_range h Hh) as (x & y & Hxy).
    destruct (num_vertices_above _ _ Hn j i Hin) as [Hi Hj].
    destruct (valid_corpus_edges _ Hv j i Hin) as [Hi0 Hj0].
    set (s := two_scores (Z.to_nat n) (Z.to_nat i) (Z.to_nat j) x y).
    assert (Hlen : length s = Z.to_nat n) by apply two_scores_length.
    exists s. split; [exact Hlen |].
    assert (Hrange : forall j' i', In (j', i') (all_edges graphs) ->
              (0 <= i' < Z.of_nat (length s))%Z /\
              (0 <= j' < Z.of_nat (length s))%Z).
    { intros j' i' Hin'.
      destruct (num_vertices_above _ _ Hn j' i' Hin').
      destruct (valid_corpus_edges _ Hv j' i' Hin'). rewrite Hlen. lia. }
    unfold negative_log_likelihood, py_sum.
    rewrite (py_sum_from_raises _ ValueError_math_domain);
      [reflexivity | |].
    + intros [j' i'] Hin'. destruct (Hrange j' i' Hin') as [Hi' Hj'].
      destruct (edge_term_in_range_cases h s j' i' Hi' Hj')
        as [[_ Hok] | [_ Hr]]; auto.
    + exists (j, i). split; [exact Hin |].
      destruct (Hrange j i Hin) as [Hi' Hj'].
      destruct (edge_term_in_range_cases h s j i Hi' Hj')
        as [[Hpos _] | [_ Hr]]; [| exact Hr].
      exfalso. unfold score_at, s in Hpos.
      rewrite two_scores_first in Hpos by lia.
      rewrite two_scores_second in Hpos by lia.
      lra.
Qed.

Lemma preference_accuracy_must_be_a_probability_witness :
  exists s : list R,
    length s = Z.to_nat 2 /\
    negative_log_likelihood [[(1, 0)%Z]] 2 (1 / 2) s
    = Raise ValueError_math_domain.
Proof.
  apply (proj2 (preference_accuracy_must_be_a_probability [[(1, 0)%Z]] 2
                  (1 / 2) 2 1 0 eq_refl
                  (single_edge_valid 1 0 ltac:(lia) ltac:(lia))
                  (or_introl eq_refl) ltac:(lia))).
  intros [_ H]. lra.
Defined.

(** ** Without regularization the scores have no scale *)

Lemma getitem_map (f : R -> R) (s : list R) (i : Z) :
  getitem (map f s) i
  = match getitem s i with Ok x => Ok (f x) | Raise e => Raise e end.
Proof.
  unfold getitem. rewrite length_map.
  assert (Hnth : forall k, (k < length s)%nat ->
                           nth k (map f s) 0 = f (nth k s 0)).
  { intros k Hk. rewrite (nth_indep _ 0 (f 0)) by now rewrite length_map.
    apply map_nth. }
  destruct (Z.leb_spec 0 i), (Z.ltb_spec i (Z.of_nat (length s))); simpl;
    try (rewrite Hnth by lia; reflexivity);
    destruct (Z.leb_spec (- Z.of_nat (length s)) i), (Z.ltb_spec i 0); simpl;
    try reflexivity; rewrite Hnth by lia; reflexivity.
Qed.

Lemma edge_term_shift (h c : R) (s : list R) (e : edge) :
  edge_term h (map (fun x => x + c) s) e = edge_term h s e.
Proof.
  destruct e as [j i]. unfold edge_term. rewrite !getitem_map.
  destruct (getitem s i) as [si | ei]; [| reflexivity]. simpl.
  destruct (getitem s j) as [sj | ej]; [| reflexivity]. simpl.
  now rewrite !bt_ok, !spec_bt_shift.
Qed.

(** With [regularization_strength = 0] the objective does not change when
    the same constant is added to every score, so that a minimum is never
    unique: the regularization term alone fixes the scale of the scores. *)
Theorem zero_regularization_leaves_scale_free (graphs : list graph)
  (h c : R) (s : list R) :
  negative_log_likelihood graphs h 0 (map (fun x => x + c) s)
  = negative_log_likelihood graphs h 0 s /\
  (global_minimum (negative_log_likelihood graphs h 0) s <->
   global_minimum (negative_log_likelihood graphs h 0)
     (map (fun x => x + c) s)).
Proof.
  assert (E : forall (c' : R) (s' : list R),
             negative_log_likelihood graphs h 0 (map (fun x => x + c') s')
             = negative_log_likelihood graphs h 0 s').
  { intros c' s'. unfold negative_log_likelihood, py_sum.
    rewrite (py_sum_from_ext _ (edge_term h s'))
      by (intros e _; apply edge_term_shift).
    destruct (py_sum_from (edge_term h s') (all_edges graphs) 0)
      as [L | e]; [| reflexivity].
    simpl. pose proof (reg_sum_ok (map (fun x => x + c') s')) as H1.
    pose proof (reg_sum_ok s') as H2. unfold py_sum in H1, H2.
    rewrite H1, H2. simpl. f_equal. lra. }
  split; [apply E |].
  unfold global_minimum. rewrite E, length_map. reflexivity.
Qed.

(** ** Turning every preference around *)

Lemma edge_term_reverse (h : R) (s : list R) (e : edge) :
  edge_term (1 - h) s (swap_edge e) = edge_term h s e.
Proof.
  destruct e as [j i]. unfold edge_term, swap_edge.
  destruct (getitem_cases s i) as [[si Hi] | Hi],
           (getitem_cases s j) as [[sj Hj] | Hj];
    rewrite Hi, Hj; simpl; try reflexivity.
  rewrite !bt_ok. simpl. f_equal. lra.
Qed.

Lemma all_edges_reverse (graphs : list graph) :
  all_edges (reverse_corpus graphs) = map swap_edge (all_edges graphs).
Proof.
  unfold all_edges, reverse_corpus. now rewrite concat_map.
Qed.

Lemma num_vertices_reverse (graphs : list graph) :
  num_vertices (reverse_corpus graphs) = num_vertices graphs.
Proof.
  unfold num_vertices. rewrite all_edges_reverse, map_map.
  do 2 f_equal. apply map_ext. intros [j i]. simpl. apply Z.max_comm.
Qed.

Lemma negative_log_likelihood_reverse (graphs : list graph) (h l : R)
  (s : list R) :
  negative_log_likelihood (reverse_corpus graphs) (1 - h) l s
  = negative_log_likelihood graphs h l s.
Proof.
  unfold negative_log_likelihood, py_sum.
  rewrite all_edges_reverse, py_sum_from_map.
  rewrite (py_sum_from_ext _ (edge_term h s))
    by (intros e _; apply edge_term_reverse).
  reflexivity.
Qed.

(** An annotator who is right with probability [1 - h] about the reversed
    preferences is the annotator who is right with probability [h] about
    the preferences: the objective, the number of objects, the scores and
    the ranks are the same.  In particular preferences of accuracy [0] are
    the reversed preferences with accuracy [1]. *)
Theorem reversed_preferences_with_complementary_accuracy
  (minimize : optimizer) (argsort : argsort_t) (graphs : list graph)
  (std : bool) (h l : R) :
  (forall s, negative_log_likelihood (reverse_corpus graphs) (1 - h) l s
             = negative_log_likelihood graphs h l s) /\
  num_vertices (reverse_corpus graphs) = num_vertices graphs /\
  estimate_bt_scores minimize (reverse_corpus graphs) std (1 - h) l
  = estimate_bt_scores minimize graphs std h l /\
  estimate_bt_ranks minimize argsort (reverse_corpus graphs) (1 - h) l
  = estimate_bt_ranks minimize argsort graphs h l.
Proof.
  assert (E : negative_log_likelihood (reverse_corpus graphs) (1 - h) l
              = negative_log_likelihood graphs h l).
  { apply functional_extensionality. intros s.
    apply negative_log_likelihood_reverse. }
  split; [apply negative_log_likelihood_reverse |].
  split; [apply num_vertices_reverse |].
  unfold estimate_bt_ranks, estimate_bt_scores.
  rewrite num_vertices_reverse, E. split; reflexivity.
Qed.

(** ** The order and the grouping of the preferences *)

Lemma py_max_permutation (xs ys : list Z) :
  Permutation xs ys -> py_max xs = py_max ys.
Proof.
  intros HP. destruct (py_max xs) as [m | e] eqn:E.
  - symmetry. apply py_max_unique.
    + apply (Permutation_in _ HP). now apply py_max_in.
    + intros y Hy. apply (py_max_ge _ _ E).
      now apply (Permutation_in _ (Permutation_sym HP)).
  - destruct xs as [| x xs]; [| discriminate].
    apply Permutation_nil in HP. now subst.
Qed.

(** The result depends on the preferences only, not on the order of the
    annotators nor on which annotator stated which preference: two valid
    corpora with the same edges, in any order and grouping, have the same
    number of objects, the same objective and the same scores. *)
Theorem annotators_are_interchangeable (minimize : optimizer)
  (graphs graphs' : list graph) (std : bool) (h l : R) (n : Z) :
  reads_same_length minimize ->
  Permutation (all_edges graphs) (all_edges graphs') ->
  num_vertices graphs = Ok n ->
  valid_corpus graphs ->
  0 <= h <= 1 ->
  num_vertices graphs' = Ok n /\
  (forall s, length s = Z.to_nat n ->
             negative_log_likelihood graphs h l s
             = negative_log_likelihood graphs' h l s) /\
  estimate_bt_scores minimize graphs std h l
  = estimate_bt_scores minimize graphs' std h l.
Proof.
  intros Hm HP Hn Hv Hh.
  assert (Hn' : num_vertices graphs' = Ok n).
  { rewrite <- Hn. unfold num_vertices. f_equal. symmetry.
    apply py_max_permutation. now apply Permutation_map. }
  assert (Hv' : valid_corpus graphs').
  { intros g e Hg He.
    assert (Hin : In e (all_edges graphs')) by (apply in_all_edges; eauto).
    apply (Permutation_in _ (Permutation_sym HP)) in Hin.
    apply in_all_edges in Hin. destruct Hin as (g0 & Hg0 & He0).
    exact (Hv g0 e Hg0 He0). }
  assert (E : forall s, length s = Z.to_nat n ->
                        negative_log_likelihood graphs h l s
                        = negative_log_likelihood graphs' h l s).
  { intros s Hs.
    rewrite (negative_log_likelihood_spec graphs h l n s Hn Hv Hh Hs).
    rewrite (negative_log_likelihood_spec graphs' h l n s Hn' Hv' Hh Hs).
    unfold spec_objective. rewrite !spec_L_all_edges.
    rewrite (Rsum_permutation _ _ (Permutation_map (spec_edge_term h s) HP)).
    reflexivity. }
  split; [exact Hn' |]. split; [exact E |].
  unfold estimate_bt_scores. rewrite Hn, Hn'. simpl.
  rewrite (Hm (negative_log_likelihood graphs h l)
              (negative_log_likelihood graphs' h l)); [reflexivity |].
  intros x Hx. apply E. now rewrite Hx, initial_guess_length.
Qed.

Lemma annotators_are_interchangeable_witness :
  num_vertices [[(2, 1)%Z; (1, 0)%Z]] = Ok 3%Z /\
  (forall s, length s = Z.to_nat 3 ->
             negative_log_likelihood [[(1, 0)%Z]; [(2, 1)%Z]] (9 / 10) (1 / 2) s
             = negative_log_likelihood [[(2, 1)%Z; (1, 0)%Z]]
                 (9 / 10) (1 / 2) s) /\
  estimate_bt_scores minimize_no_step [[(1, 0)%Z]; [(2, 1)%Z]] false
    (9 / 10) (1 / 2)
  = estimate_bt_scores minimize_no_step [[(2, 1)%Z; (1, 0)%Z]] false
      (9 / 10) (1 / 2).
Proof.
  assert (Hh : 0 <= 9 / 10 <= 1) by lra.
  assert (Hv : valid_corpus [[(1, 0)%Z]; [(2, 1)%Z]]).
  { intros g e [<- | [<- | []]] [<- | []]; simpl; lia. }
  exact (annotators_are_interchangeable minimize_no_step
           [[(1, 0)%Z]; [(2, 1)%Z]] [[(2, 1)%Z; (1, 0)%Z]] false
           (9 / 10) (1 / 2) 3 (minimize_ext _ minimize_no_step_contract)
           (perm_swap _ _ _) eq_refl Hv Hh).
Defined.

(** ** Preferences that carry no information *)

Lemma Rsum_constant {A : Type} (c : R) (xs : list A) :
  Rsum (map (fun _ => c) xs) = INR (length xs) * c.
Proof.
  unfold Rsum. induction xs as [| x xs IH]; [simpl; lra |].
  cbn [map fold_right length]. rewrite IH, S_INR. lra.
Qed.

Lemma spec_R_ones (n : nat) :
  spec_R (repeat 1 n) = INR n * spec_reg_term 1.
Proof.
  unfold spec_R, Rsum. induction n as [| n IH]; [simpl; lra |].
  cbn [repeat map fold_right]. rewrite IH, S_INR. lra.
Qed.

(** When no score vector has a greater likelihood than the initial guess,
    the initial guess minimizes the objective, and an optimizer that
    stays at a minimum gives the score [e] to every object. *)
Lemma ones_minimize (minimize : optimizer) (graphs : list graph) (h l : R)
  (n : Z) :
  stays_at_minimum minimize ->
  num_vertices graphs = Ok n ->
  valid_corpus graphs ->
  0 <= h <= 1 ->
  0 <= l ->
  (forall s, length s = Z.to_nat n ->
             spec_L h graphs s <= spec_L h graphs (repeat 1 (Z.to_nat n))) ->
  global_minimum (negative_log_likelihood graphs h l)
    (repeat 1 (Z.to_nat n)) /\
  forall std : bool,
    estimate_bt_scores minimize graphs std h l
    = Ok (if std then zscore (repeat (exp 1) (Z.to_nat n))
          else map Fin (repeat (exp 1) (Z.to_nat n))).
Proof.
  intros Hm Hn Hv Hh Hl HL.
  assert (Hmin : global_minimum (negative_log_likelihood graphs h l)
                   (repeat 1 (Z.to_nat n))).
  { exists (spec_objective h l graphs (repeat 1 (Z.to_nat n))). split.
    - apply (negative_log_likelihood_spec _ _ _ n); try assumption.
      apply repeat_length.
    - intros x v Hx Hfx. rewrite repeat_length in Hx.
      rewrite (negative_log_likelihood_spec _ _ _ n x Hn Hv Hh Hx) in Hfx.
      injection Hfx as <-. unfold spec_objective.
      pose proof (HL x Hx) as HLx.
      pose proof (spec_R_le_ones x) as HR. rewrite Hx in HR. nra. }
  split; [exact Hmin |].
  intros std. unfold estimate_bt_scores. rewrite Hn. simpl.
  unfold initial_guess. rewrite Hm.
  - simpl. rewrite map_repeat. destruct std; reflexivity.
  - rewrite repeat_length. now apply negative_log_likelihood_total.
  - exact Hmin.
Qed.

Lemma spec_edge_term_half (s : list R) (e : edge) :
  spec_edge_term (1 / 2) s e = spec_log10 (/ 2).
Proof.
  destruct e as [j i]. unfold spec_edge_term. f_equal.
  pose proof (spec_bt_compl (score_at s i) (score_at s j)). lra.
Qed.

(** With [preference_accuracy = 0.5] (an annotator who answers at random)
    the preferences do not matter: the likelihood term of every edge is
    [log10(1/2)] at every score vector, the initial guess minimizes the
    objective, and an optimizer that stays at a minimum gives the same
    score [e] to every object. *)
Theorem random_annotators_carry_no_information (minimize : optimizer)
  (graphs : list graph) (l : R) (n : Z) :
  stays_at_minimum minimize ->
  num_vertices graphs = Ok n ->
  valid_corpus graphs ->
  0 <= l ->
  (forall s, length s = Z.to_nat n ->
     negative_log_likelihood graphs (1 / 2) l s
     = Ok (- (INR (length (all_edges graphs)) * spec_log10 (/ 2)
              + l * spec_R s))) /\
  global_minimum (negative_log_likelihood graphs (1 / 2) l)
    (repeat 1 (Z.to_nat n)) /\
  estimate_bt_scores minimize graphs false (1 / 2) l
  = Ok (map Fin (repeat (exp 1) (Z.to_nat n))).
Proof.
  intros Hm Hn Hv Hl.
  assert (Hh : 0 <= 1 / 2 <= 1) by lra.
  assert (HL : forall s, spec_L (1 / 2) graphs s
                         = INR (length (all_edges graphs)) * spec_log10 (/ 2)).
  { intros s. rewrite spec_L_all_edges, <- Rsum_constant. f_equal.
    apply map_ext. intros e. apply spec_edge_term_half. }
  split.
  - intros s Hs.
    rewrite (negative_log_likelihood_spec _ _ _ n s Hn Hv Hh Hs).
    unfold spec_objective. now rewrite HL.
  - destruct (ones_minimize minimize graphs (1 / 2) l n Hm Hn Hv Hh Hl)
      as [Hmin Hs].
    + intros s _. rewrite !HL. lra.
    + split; [exact Hmin | exact (Hs false)].
Qed.

Lemma random_annotators_carry_no_information_witness :
  (forall s, length s = Z.to_nat 2 ->
     negative_log_likelihood [[(1, 0)%Z]] (1 / 2) (1 / 2) s
     = Ok (- (INR (length (all_edges [[(1, 0)%Z]])) * spec_log10 (/ 2)
              + 1 / 2 * spec_R s))) /\
  global_minimum (negative_log_likelihood [[(1, 0)%Z]] (1 / 2) (1 / 2))
    (repeat 1 (Z.to_nat 2)) /\
  estimate_bt_scores minimize_no_step [[(1, 0)%Z]] false (1 / 2) (1 / 2)
  = Ok (map Fin (repeat (exp 1) (Z.to_nat 2))).
Proof.
  assert (Hl : 0 <= 1 / 2) by lra.
  exact (random_annotators_carry_no_information minimize_no_step
           [[(1, 0)%Z]] (1 / 2) 2 (minimize_stays _ minimize_no_step_contract)
           eq_refl (single_edge_valid 1 0 ltac:(lia) ltac:(lia)) Hl).
Defined.

(** When every preference is stated together with its opposite (by the
    same or by another annotator, in any order), the preferences cancel:
    the initial guess minimizes the objective, and an optimizer that
    stays at a minimum gives the same score [e] to every object. *)
Theorem opposite_preferences_cancel (minimize : optimizer)
  (graphs : list graph) (ps : list edge) (h l : R) (n : Z) :
  stays_at_minimum minimize ->
  num_vertices graphs = Ok n ->
  valid_corpus graphs ->
  0 <= h <= 1 ->
  0 <= l ->
  Permutation (all_edges graphs) (opposite_pairs ps) ->
  global_minimum (negative_log_likelihood graphs h l)
    (repeat 1 (Z.to_nat n)) /\
  estimate_bt_scores minimize graphs false h l
  = Ok (map Fin (repeat (exp 1) (Z.to_nat n))).
Proof.
  intros Hm Hn Hv Hh Hl HP.
  assert (HL : forall s,
             spec_L h graphs s
             = Rsum (map (fun e => spec_edge_term h s e
                                   + spec_edge_term h s (swap_edge e)) ps)).
  { intros s. rewrite spec_L_all_edges.
    rewrite (Rsum_permutation _ _ (Permutation_map (spec_edge_term h s) HP)).
    apply Rsum_opposite_pairs. }
  destruct (ones_minimize minimize graphs h l n Hm Hn Hv Hh Hl)
    as [Hmin Hs].
  - intros s _. rewrite !HL.
    apply Rle_trans
      with (Rsum (map (fun _ : edge => spec_log10 (/ 2) + spec_log10 (/ 2))
                    ps)).
    + apply Rsum_le_pointwise. intros e _.
      now apply spec_edge_term_pair_le.
    + right. f_equal. apply map_ext_in. intros [j i] Hin.
      assert (Hin' : In (j, i) (all_edges graphs)).
      { apply (Permutation_in _ (Permutation_sym HP)).
        unfold opposite_pairs. apply in_flat_map.
        exists (j, i). split; [exact Hin | now left]. }
      destruct (num_vertices_above _ _ Hn j i Hin').
      destruct (valid_corpus_edges _ Hv j i Hin').
      unfold swap_edge.
      rewrite !spec_edge_term_equal_scores;
        [reflexivity | rewrite !score_at_ones by lia; reflexivity ..].
  - split; [exact Hmin | exact (Hs false)].
Qed.

Lemma opposite_preferences_cancel_witness :
  global_minimum
    (negative_log_likelihood disagreement_corpus (9 / 10) (1 / 2))
    (repeat 1 (Z.to_nat 2)) /\
  estimate_bt_scores minimize_no_step disagreement_corpus false
    (9 / 10) (1 / 2)
  = Ok (map Fin (repeat (exp 1) (Z.to_nat 2))).
Proof.
  assert (Hh : 0 <= 9 / 10 <= 1) by lra.
  assert (Hl : 0 <= 1 / 2) by lra.
  exact (opposite_preferences_cancel minimize_no_step disagreement_corpus
           [(1, 0)%Z] (9 / 10) (1 / 2) 2
           (minimize_stays _ minimize_no_step_contract) eq_refl
           disagreement_corpus_valid Hh Hl (Permutation_refl _)).
Defined.

(** ** Standardization keeps the order of the scores *)

Lemma std_nonneg (a : list R) : 0 <= std a.
Proof. unfold std. apply sqrt_pos. Qed.

Lemma standardized_order (a : list R) (x y : R) :
  std a <> 0 ->
  ((x - mean a) / std a < (y - mean a) / std a <-> x < y).
Proof.
  intros H. pose proof (std_nonneg a) as H0.
  assert (Hpos : 0 < / std a) by (apply Rinv_0_lt_compat; lra).
  unfold Rdiv. split; intros Hlt.
  - apply Rmult_lt_reg_r in Hlt; [lra | exact Hpos].
  - apply Rmult_lt_compat_r; [exact Hpos | lra].
Qed.

(** Whenever the standardized scores are numbers (the raw scores are not
    all equal), they order the objects as the raw scores do. *)
Theorem standardization_keeps_the_order (minimize : optimizer)
  (graphs : list graph) (h l : R) (n : Z) :
  returns_on_total minimize ->
  num_vertices graphs = Ok n ->
  valid_corpus graphs ->
  0 <= h <= 1 ->
  exists raw : list R,
    estimate_bt_scores minimize graphs false h l = Ok (map Fin raw) /\
    (std raw <> 0 ->
     exists z : list R,
       estimate_bt_scores minimize graphs true h l = Ok (map Fin z) /\
       length z = length raw /\
       forall i j a b za zb,
         nth_error raw i = Some a -> nth_error raw j = Some b ->
         nth_error z i = Some za -> nth_error z j = Some zb ->
         (za < zb <-> a < b)).
Proof.
  intros Hm Hn Hv Hh.
  destruct (estimate_bt_scores_shape minimize Hm graphs h l n Hn Hv Hh)
    as (x & _ & _ & Hs).
  exists (map exp x). split; [apply (Hs false) |].
  intros Hstd.
  exists (map (fun a => (a - mean (map exp x)) / std (map exp x)) (map exp x)).
  split; [rewrite (Hs true), (zscore_finite _ Hstd); reflexivity |].
  split; [now rewrite length_map |].
  intros i j a b za zb Ha Hb Hza Hzb.
  rewrite nth_error_map, Ha in Hza. rewrite nth_error_map, Hb in Hzb.
  simpl in Hza, Hzb. injection Hza as <-. injection Hzb as <-.
  now apply standardized_order.
Qed.

Lemma standardization_keeps_the_order_witness :
  exists raw z : list R,
    raw = [exp (1 + 1); exp 1] /\
    std raw <> 0 /\
    estimate_bt_scores minimize_first_up [[(1, 0)%Z]] false (9 / 10) (1 / 2)
    = Ok (map Fin raw) /\
    estimate_bt_scores minimize_first_up [[(1, 0)%Z]] true (9 / 10) (1 / 2)
    = Ok (map Fin z) /\
    length z = length raw /\
    forall i j a b za zb,
      nth_error raw i = Some a -> nth_error raw j = Some b ->
      nth_error z i = Some za -> nth_error z j = Some zb ->
      (za < zb <-> a < b).
Proof.
  assert (Hh : 0 <= 9 / 10 <= 1) by lra.
  assert (Hv : valid_corpus [[(1, 0)%Z]]) by (apply single_edge_valid; lia).
  destruct (standardization_keeps_the_order minimize_first_up [[(1, 0)%Z]]
              (9 / 10) (1 / 2) 2 minimize_first_up_returns eq_refl Hv Hh)
    as (raw & Hraw & Hz).
  assert (E : raw = [exp (1 + 1); exp 1]).
  { apply map_Fin_injective.
    pose proof (estimate_bt_scores_first_up [[(1, 0)%Z]] false (9 / 10)
                  (1 / 2) 2 eq_refl Hv Hh) as Hs.
    rewrite Hraw in Hs. now injection Hs. }
  assert (Hstd : std raw <> 0).
  { intros H0. apply exp_2_neq_exp_1.
    apply (proj1 (std_zero_iff raw) H0); rewrite E; simpl; auto. }
  destruct (Hz Hstd) as (z & Htrue & Hlen & Hord).
  exists raw, z. repeat (split; [assumption |]). exact Hord.
Defined.

(** ** The objective is bounded below *)

Lemma spec_log10_1 : spec_log10 1 = 0.
Proof. unfold spec_log10. rewrite ln_1. unfold Rdiv. lra. Qed.

Lemma spec_log10_inv (x : R) : 0 < x -> spec_log10 (/ x) = - spec_log10 x.
Proof.
  intros Hx. unfold spec_log10. rewrite ln_Rinv by exact Hx.
  pose proof ln10_pos. field. lra.
Qed.

Lemma spec_reg_term_anchor : spec_reg_term 1 = - spec_log10 4.
Proof.
  rewrite spec_reg_term_product.
  replace (1 - 1) with 0 by lra. rewrite Ropp_0, exp_0.
  replace (2 + (1 + 1)) with 4 by lra. apply spec_log10_inv. lra.
Qed.

Lemma spec_log10_4_pos : 0 < spec_log10 4.
Proof.
  rewrite <- spec_log10_1. apply spec_log10_increasing; lra.
Qed.

Lemma spec_edge_term_nonpos (h : R) (s : list R) (e : edge) :
  0 <= h <= 1 -> spec_edge_term h s e <= 0.
Proof.
  intros Hh. destruct e as [j i]. unfold spec_edge_term.
  rewrite <- spec_log10_1.
  pose proof (spec_bt_pos (score_at s i) (score_at s j)).
  pose proof (spec_bt_pos (score_at s j) (score_at s i)).
  pose proof (spec_bt_lt_1 (score_at s i) (score_at s j)).
  pose proof (spec_bt_lt_1 (score_at s j) (score_at s i)).
  apply spec_log10_le; [now apply mix_pos | nra].
Qed.

(** On a valid corpus, with a preference accuracy in [[0, 1]] and a
    regularization strength that is not negative, the value of the
    objective at a score vector with one entry per object is at least
    [regularization_strength * N * log10(4)], and so never negative. *)
Theorem objective_is_bounded_below (graphs : list graph) (h l : R) (n : Z)
  (s : list R) :
  num_vertices graphs = Ok n ->
  valid_corpus graphs ->
  0 <= h <= 1 ->
  0 <= l ->
  length s = Z.to_nat n ->
  exists v : R,
    negative_log_likelihood graphs h l s = Ok v /\
    l * (INR (Z.to_nat n) * spec_log10 4) <= v /\
    0 <= v.
Proof.
  intros Hn Hv Hh Hl Hs.
  exists (spec_objective h l graphs s).
  split; [now apply (negative_log_likelihood_spec _ _ _ n) |].
  assert (HL : spec_L h graphs s <= 0).
  { rewrite spec_L_all_edges.
    replace 0 with (INR (length (all_edges graphs)) * 0) by lra.
    rewrite <- Rsum_constant. apply Rsum_le_pointwise.
    intros e _. now apply spec_edge_term_nonpos. }
  pose proof (spec_R_le_ones s) as HR.
  rewrite spec_R_ones, spec_reg_term_anchor, Hs in HR.
  pose proof spec_log10_4_pos as H4.
  pose proof (pos_INR (Z.to_nat n)) as HN.
  assert (Hb : l * (INR (Z.to_nat n) * spec_log10 4)
               <= spec_objective h l graphs s).
  { unfold spec_objective. nra. }
  split; [exact Hb |].
  assert (0 <= l * (INR (Z.to_nat n) * spec_log10 4)).
  { apply Rmult_le_pos; [exact Hl |]. apply Rmult_le_pos; lra. }
  lra.
Qed.

Lemma objective_is_bounded_below_witness :
  exists v : R,
    negative_log_likelihood [[(1, 0)%Z]] (9 / 10) (1 / 2) [3; - 2] = Ok v /\
    1 / 2 * (INR (Z.to_nat 2) * spec_log10 4) <= v /\
    0 <= v.
Proof.
  assert (Hh : 0 <= 9 / 10 <= 1) by lra.
  assert (Hl : 0 <= 1 / 2) by lra.
  exact (objective_is_bounded_below [[(1, 0)%Z]] (9 / 10) (1 / 2) 2 [3; - 2]
           eq_refl (single_edge_valid 1 0 ltac:(lia) ltac:(lia)) Hh Hl
           eq_refl).
Defined.

(** ** Objects that occur in no preference *)

Lemma set_score_cons_0 (x y : R) (s : list R) :
  set_score 0 x (y :: s) = x :: s.
Proof. reflexivity. Qed.

Lemma set_score_cons_S (k : nat) (x y : R) (s : list R) :
  set_score (S k) x (y :: s) = y :: set_score k x s.
Proof. reflexivity. Qed.

Lemma set_score_length (k : nat) (x : R) (s : list R) :
  (k < length s)%nat -> length (set_score k x s) = length s.
Proof.
  revert k. induction s as [| y s IH]; intros k Hk; [simpl in Hk; lia |].
  destruct k as [| k]; [reflexivity |].
  rewrite set_score_cons_S. simpl. f_equal. apply IH. simpl in Hk. lia.
Qed.

Lemma set_score_other (k i : nat) (x : R) (s : list R) :
  (k < length s)%nat -> i <> k ->
  nth i (set_score k x s) 0 = nth i s 0.
Proof.
  revert k i. induction s as [| y s IH]; intros k i Hk Hik;
    [simpl in Hk; lia |].
  destruct k as [| k].
  - rewrite set_score_cons_0. destruct i; [congruence | reflexivity].
  - rewrite set_score_cons_S. destruct i as [| i]; [reflexivity |].
    simpl. apply IH; [simpl in Hk; lia | congruence].
Qed.

Lemma spec_R_set_score (k : nat) (x : R) (s : list R) :
  (k < length s)%nat ->
  spec_R (set_score k x s)
  = spec_R s - spec_reg_term (nth k s 0) + spec_reg_term x.
Proof.
  unfold spec_R, Rsum.
  revert k. induction s as [| y s IH]; intros k Hk; [simpl in Hk; lia |].
  destruct k as [| k].
  - rewrite set_score_cons_0. simpl. lra.
  - rewrite set_score_cons_S. cbn [map fold_right nth].
    rewrite IH by (simpl in Hk; lia). lra.
Qed.

(** An object whose index is below the number of objects but which occurs
    in no preference is held by the regularization term alone: moving its
    entry to [1.0] strictly lowers the objective, so that at a minimum
    of the objective its entry is [1.0], i.e. its score is [e]. *)
Theorem unreferenced_object_sits_at_the_anchor (graphs : list graph)
  (h l : R) (n : Z) (k : nat) (s : list R) :
  num_vertices graphs = Ok n ->
  valid_corpus graphs ->
  0 <= h <= 1 ->
  0 < l ->
  (k < Z.to_nat n)%nat ->
  (forall j i, In (j, i) (all_edges graphs) ->
               i <> Z.of_nat k /\ j <> Z.of_nat k) ->
  length s = Z.to_nat n ->
  (nth k s 0 <> 1 ->
   exists v v' : R,
     negative_log_likelihood graphs h l s = Ok v /\
     negative_log_likelihood graphs h l (set_score k 1 s) = Ok v' /\
     v' < v) /\
  (global_minimum (negative_log_likelihood graphs h l) s ->
   nth k s 0 = 1).
Proof.
  intros Hn Hv Hh Hl Hk Hfree Hs.
  assert (Hk' : (k < length s)%nat) by lia.
  assert (Hs' : length (set_score k 1 s) = Z.to_nat n)
    by (rewrite set_score_length; assumption).
  assert (HL : spec_L h graphs (set_score k 1 s) = spec_L h graphs s).
  { rewrite !spec_L_all_edges. f_equal. apply map_ext_in.
    intros [j i] Hin. destruct (Hfree j i Hin) as [Hi Hj].
    destruct (valid_corpus_edges _ Hv j i Hin).
    unfold spec_edge_term, score_at.
    rewrite !(set_score_other k) by (try assumption; lia).
    reflexivity. }
  assert (Hstrict : nth k s 0 <> 1 ->
            spec_objective h l graphs (set_score k 1 s)
            < spec_objective h l graphs s).
  { intros Hne. unfold spec_objective.
    rewrite HL, (spec_R_set_score k 1 s Hk').
    assert (spec_reg_term (nth k s 0) < spec_reg_term 1).
    { apply spec_reg_term_decreasing. unfold s_vo.
      replace (1 - 1) with 0 by lra. rewrite Rabs_R0.
      apply Rabs_pos_lt. lra. }
    nra. }
  split.
  - intros Hne. eexists. eexists.
    split; [now apply (negative_log_likelihood_spec _ _ _ n) |].
    split; [now apply (negative_log_likelihood_spec _ _ _ n) |].
    now apply Hstrict.
  - intros (v0 & Hv0 & Hmin).
    destruct (Req_dec_T (nth k s 0) 1) as [E | Hne]; [exact E |].
    exfalso.
    rewrite (negative_log_likelihood_spec _ _ _ n s Hn Hv Hh Hs) in Hv0.
    injection Hv0 as <-.
    assert (Hle : spec_objective h l graphs s
                  <= spec_objective h l graphs (set_score k 1 s)).
    { apply (Hmin (set_score k 1 s)); [congruence |].
      now apply (negative_log_likelihood_spec _ _ _ n). }
    pose proof (Hstrict Hne). lra.
Qed.

Lemma unreferenced_object_sits_at_the_anchor_witness :
  exists v v' : R,
    negative_log_likelihood [[(2, 0)%Z]] (9 / 10) (1 / 2) [0; 5; 0] = Ok v /\
    negative_log_likelihood [[(2, 0)%Z]] (9 / 10) (1 / 2)
      (set_score 1 1 [0; 5; 0]) = Ok v' /\
    v' < v.
Proof.
  assert (Hh : 0 <= 9 / 10 <= 1) by lra.
  assert (Hl : 0 < 1 / 2) by lra.
  assert (Hfree : forall j i, In (j, i) (all_edges [[(2, 0)%Z]]) ->
                              i <> Z.of_nat 1 /\ j <> Z.of_nat 1).
  { intros j i [E | []]. injection E as <- <-. lia. }
  apply (proj1 (unreferenced_object_sits_at_the_anchor [[(2, 0)%Z]]
                  (9 / 10) (1 / 2) 3 1 [0; 5; 0] eq_refl
                  (single_edge_valid 2 0 ltac:(lia) ltac:(lia)) Hh Hl
                  ltac:(simpl; lia) Hfree eq_refl)).
  simpl. lra.
Defined.

(** ** Ranks and the order of the objects *)

Lemma argsort_NoDup {A : Type} {O : Ordered A} (a : list A) (p : list nat) :
  is_argsort a p -> NoDup p.
Proof.
  intros [HP _]. apply (Permutation_NoDup (Permutation_sym HP)), seq_NoDup.
Qed.

(** The ranks are the inverse of the order of the objects from the
    greatest to the least score: the object at position [k] (from 0) of
    [(-bt_scores).argsort()] is the object of rank [k + 1], and along that
    order the scores do not increase. *)
Theorem ranks_invert_the_order (minimize : optimizer) (argsort : argsort_t)
  (graphs : list graph) (h l : R) (n : Z) :
  returns_on_total minimize ->
  argsort_contract argsort ->
  num_vertices graphs = Ok n ->
  valid_corpus graphs ->
  0 <= h <= 1 ->
  exists (scores : list R) (order ranks : list nat),
    estimate_bt_scores minimize graphs false h l = Ok (map Fin scores) /\
    order = argsort _ _ (map np_neg (map Fin scores)) /\
    estimate_bt_ranks minimize argsort graphs h l = Ok ranks /\
    Permutation order (seq 0 (Z.to_nat n)) /\
    (forall k i, nth_error order k = Some i <->
                 nth_error ranks i = Some (k + 1)%nat) /\
    (forall k1 k2 i1 i2 s1 s2,
       (k1 < k2)%nat ->
       nth_error order k1 = Some i1 -> nth_error order k2 = Some i2 ->
       nth_error scores i1 = Some s1 -> nth_error scores i2 = Some s2 ->
       s2 <= s1).
Proof.
  intros Hm Hsort Hn Hv Hh.
  destruct (estimate_bt_scores_shape minimize Hm graphs h l n Hn Hv Hh)
    as (x & _ & Hlen & Hs).
  specialize (Hs false). cbv iota in Hs.
  set (scores := map exp x) in *.
  set (a := map np_neg (map Fin scores)).
  set (p := argsort _ _ a). set (q := argsort _ _ p).
  assert (Hp : is_argsort a p) by (apply Hsort, lawful_npfloat).
  assert (Hq : is_argsort p q) by (apply Hsort, lawful_nat).
  assert (Ha : length a = Z.to_nat n)
    by (unfold a, scores; now rewrite !length_map).
  exists scores, p, (map (fun k => (k + 1)%nat) q).
  split; [exact Hs |]. split; [reflexivity |].
  split; [apply (estimate_bt_ranks_shape minimize argsort graphs h l _ Hs) |].
  split; [rewrite <- Ha; apply Hp |].
  split.
  - intros k i. rewrite nth_error_map. split.
    + intros Hki.
      assert (Hi : (i < length a)%nat).
      { destruct Hp as [HP _].
        assert (Hin : In i (seq 0 (length a)))
          by (apply (Permutation_in _ HP); eapply nth_error_In; exact Hki).
        apply in_seq in Hin. lia. }
      destruct (rank_position a p q Hp Hq i Hi) as (k' & Hq' & Hp' & _).
      assert (k = k').
      { apply (proj1 (NoDup_nth_error p) (argsort_NoDup a p Hp)).
        - apply nth_error_Some. congruence.
        - congruence. }
      subst k'. rewrite Hq'. reflexivity.
    + intros Hr. destruct (nth_error q i) as [k' |] eqn:Hq'; [| discriminate].
      simpl in Hr. injection Hr as Hr. assert (k' = k) by lia. subst k'.
      assert (Hi : (i < length a)%nat).
      { rewrite <- (argsort_length a p Hp).
        destruct Hq as [HQ _]. apply Permutation_length in HQ.
        rewrite length_seq in HQ. rewrite <- HQ.
        apply nth_error_Some. congruence. }
      destruct (rank_position a p q Hp Hq i Hi) as (k' & Hq'' & Hp' & _).
      congruence.
  - intros k1 k2 i1 i2 s1 s2 Hk H1 H2 Hs1 Hs2.
    destruct Hp as (_ & keys & HG & HS).
    destruct (Forall2_nth_error_l _ _ _ HG k1 i1 H1) as (y1 & Hy1 & Ha1).
    destruct (Forall2_nth_error_l _ _ _ HG k2 i2 H2) as (y2 & Hy2 & Ha2).
    unfold a in Ha1, Ha2.
    rewrite (nth_error_negated scores i1 s1 Hs1) in Ha1.
    rewrite (nth_error_negated scores i2 s2 Hs2) in Ha2.
    injection Ha1 as <-. injection Ha2 as <-.
    pose proof (StronglySorted_nth_error _ _ HS k1 k2 _ _ Hk Hy1 Hy2) as Hle.
    simpl in Hle. apply Rleb_true in Hle. lra.
Qed.

Lemma ranks_invert_the_order_witness :
  exists (scores : list R) (order ranks : list nat),
    estimate_bt_scores minimize_no_step [[(1, 0)%Z]] false (9 / 10) (1 / 2)
    = Ok (map Fin scores) /\
    order = argsort_stable _ _ (map np_neg (map Fin scores)) /\
    estimate_bt_ranks minimize_no_step argsort_stable [[(1, 0)%Z]]
      (9 / 10) (1 / 2) = Ok ranks /\
    Permutation order (seq 0 (Z.to_nat 2)) /\
    (forall k i, nth_error order k = Some i <->
                 nth_error ranks i = Some (k + 1)%nat) /\
    (forall k1 k2 i1 i2 s1 s2,
       (k1 < k2)%nat ->
       nth_error order k1 = Some i1 -> nth_error order k2 = Some i2 ->
       nth_error scores i1 = Some s1 -> nth_error scores i2 = Some s2 ->
       s2 <= s1).
Proof.
  assert (Hh : 0 <= 9 / 10 <= 1) by lra.
  exact (ranks_invert_the_order minimize_no_step argsort_stable
           [[(1, 0)%Z]] (9 / 10) (1 / 2) 2
           (minimize_returns _ minimize_no_step_contract)
           argsort_stable_contract eq_refl
           (single_edge_valid 1 0 ltac:(lia) ltac:(lia)) Hh).
Defined.

(** ** Without ties the ranks do not depend on the sort *)

Lemma np_leb_antisym (x y : npfloat) :
  np_leb x y = true -> np_leb y x = true -> x = y.
Proof.
  destruct x as [a | | | ], y as [b | | | ]; simpl;
    try discriminate; try reflexivity.
  rewrite !Rleb_true. intros H1 H2. f_equal. lra.
Qed.

Lemma StronglySorted_unique {A : Type} (R : A -> A -> Prop)
  (l1 l2 : list A) :
  (forall x, R x x) ->
  (forall x y, R x y -> R y x -> x = y) ->
  StronglySorted R l1 -> StronglySorted R l2 -> Permutation l1 l2 ->
  l1 = l2.
Proof.
  intros Hrefl Hanti. revert l2.
  induction l1 as [| x l1 IH]; intros l2 H1 H2 HP.
  - apply Permutation_nil in HP. now subst.
  - destruct l2 as [| y l2].
    + apply Permutation_sym, Permutation_nil in HP. discriminate.
    + apply StronglySorted_inv in H1. destruct H1 as [H1 Hx].
      apply StronglySorted_inv in H2. destruct H2 as [H2 Hy].
      rewrite Forall_forall in Hx, Hy.
      assert (Hyx : R y x).
      { pose proof (Permutation_in x HP (or_introl eq_refl)) as [-> | Hin];
          [apply Hrefl | now apply Hy]. }
      assert (Hxy : R x y).
      { pose proof (Permutation_in y (Permutation_sym HP) (or_introl eq_refl))
          as [-> | Hin]; [apply Hrefl | now apply Hx]. }
      assert (x = y) by now apply Hanti. subst y.
      f_equal. apply IH; [assumption .. |].
      eapply Permutation_cons_inv. exact HP.
Qed.

(** In an array without repeated entries the indices are determined by
    the entries gathered. *)
Lemma gathers_injective {A : Type} (a : list A) (p1 p2 : list nat)
  (keys : list A) :
  NoDup a -> gathers a p1 keys -> gathers a p2 keys -> p1 = p2.
Proof.
  intros ND H1. revert p2.
  induction H1 as [| i x p1 keys Hi _ IH]; intros p2 H2.
  - inversion H2. reflexivity.
  - inversion H2 as [| i' x' p2' keys' Hi' H2']; subst. f_equal.
    + apply (proj1 (NoDup_nth_error a) ND).
      * apply nth_error_Some. congruence.
      * congruence.
    + now apply IH.
Qed.

Lemma negated_NoDup (scores : list R) :
  NoDup scores -> NoDup (map np_neg (map Fin scores)).
Proof.
  intros ND. rewrite map_map. apply Finite.Injective_map_NoDup; [| exact ND].
  intros x y H. simpl in H. injection H as H. lra.
Qed.

Lemma argsort_unique (argsort1 argsort2 : argsort_t) (scores : list R) :
  argsort_contract argsort1 -> argsort_contract argsort2 ->
  NoDup scores ->
  argsort1 _ _ (argsort1 _ _ (map np_neg (map Fin scores)))
  = argsort2 _ _ (argsort2 _ _ (map np_neg (map Fin scores))).
Proof.
  intros H1 H2 ND.
  set (a := map np_neg (map Fin scores)).
  assert (Hp1 : is_argsort a (argsort1 _ _ a)) by apply H1, lawful_npfloat.
  assert (Hp2 : is_argsort a (argsort2 _ _ a)) by apply H2, lawful_npfloat.
  assert (Ep : argsort1 _ _ a = argsort2 _ _ a).
  { destruct Hp1 as (HP1 & keys1 & HG1 & HS1).
    destruct Hp2 as (HP2 & keys2 & HG2 & HS2).
    assert (keys1 = keys2).
    { apply (StronglySorted_unique (fun x y => leb x y = true));
        try assumption.
      - intros x. destruct (leb_total _ lawful_npfloat x x); assumption.
      - intros x y. apply np_leb_antisym.
      - rewrite (gathers_permutation a _ keys1 HP1 HG1).
        symmetry. apply (gathers_permutation a _ keys2 HP2 HG2). }
    subst keys2.
    apply (gathers_injective a _ _ keys1); [| assumption ..].
    now apply negated_NoDup. }
  rewrite <- Ep. set (p := argsort1 _ _ a) in *.
  assert (Hq1 : is_argsort p (argsort1 _ _ p)) by apply H1, lawful_nat.
  assert (Hq2 : is_argsort p (argsort2 _ _ p)) by apply H2, lawful_nat.
  apply (gathers_injective p _ _ (seq 0 (length a))).
  - exact (argsort_NoDup a p Hp1).
  - exact (argsort_argsort_gathers a p _ Hp1 Hq1).
  - exact (argsort_argsort_gathers a p _ Hp1 Hq2).
Qed.

(** When no two objects have the same score, the ranks do not depend on
    the sort that [argsort] uses: any two sorts within its contract give
    the same ranks. *)
Theorem ranks_without_ties_do_not_depend_on_the_sort (minimize : optimizer)
  (argsort1 argsort2 : argsort_t) (graphs : list graph) (h l : R) (n : Z) :
  returns_on_total minimize ->
  argsort_contract argsort1 ->
  argsort_contract argsort2 ->
  num_vertices graphs = Ok n ->
  valid_corpus graphs ->
  0 <= h <= 1 ->
  exists scores : list R,
    estimate_bt_scores minimize graphs false h l = Ok (map Fin scores) /\
    (NoDup scores ->
     estimate_bt_ranks minimize argsort1 graphs h l
     = estimate_bt_ranks minimize argsort2 graphs h l).
Proof.
  intros Hm H1 H2 Hn Hv Hh.
  destruct (estimate_bt_scores_shape minimize Hm graphs h l n Hn Hv Hh)
    as (x & _ & _ & Hs).
  specialize (Hs false). cbv iota in Hs.
  exists (map exp x). split; [exact Hs |].
  intros ND.
  rewrite (estimate_bt_ranks_shape minimize argsort1 graphs h l _ Hs).
  rewrite (estimate_bt_ranks_shape minimize argsort2 graphs h l _ Hs).
  now rewrite (argsort_unique argsort1 argsort2 (map exp x) H1 H2 ND).
Qed.

Lemma ranks_without_ties_do_not_depend_on_the_sort_witness :
  estimate_bt_scores minimize_first_up [[(1, 0)%Z]] false (9 / 10) (1 / 2)
  = Ok (map Fin [exp (1 + 1); exp 1]) /\
  NoDup [exp (1 + 1); exp 1] /\
  estimate_bt_ranks minimize_first_up argsort_stable [[(1, 0)%Z]]
    (9 / 10) (1 / 2)
  = estimate_bt_ranks minimize_first_up argsort_ties_reversed [[(1, 0)%Z]]
      (9 / 10) (1 / 2).
Proof.
  assert (Hh : 0 <= 9 / 10 <= 1) by lra.
  assert (Hv : valid_corpus [[(1, 0)%Z]]) by (apply single_edge_valid; lia).
  assert (Hs : estimate_bt_scores minimize_first_up [[(1, 0)%Z]] false
                 (9 / 10) (1 / 2) = Ok (map Fin [exp (1 + 1); exp 1]))
    by exact (estimate_bt_scores_first_up [[(1, 0)%Z]] false (9 / 10)
                (1 / 2) 2 eq_refl Hv Hh).
  assert (ND : NoDup [exp (1 + 1); exp 1]).
  { constructor; [| constructor; [intros [] | constructor]].
    intros [H | []]. apply exp_2_neq_exp_1. now symmetry. }
  split; [exact Hs |]. split; [exact ND |].
  destruct (ranks_without_ties_do_not_depend_on_the_sort minimize_first_up
              argsort_stable argsort_ties_reversed [[(1, 0)%Z]]
              (9 / 10) (1 / 2) 2 minimize_first_up_returns
              argsort_stable_contract argsort_ties_reversed_contract
              eq_refl Hv Hh) as (scores & Hscores & Hranks).
  apply Hranks.
  assert (E : scores = [exp (1 + 1); exp 1]).
  { apply map_Fin_injective. rewrite Hs in Hscores. now injection Hscores. }
  now rewrite E.
Defined.
